(** * Agent Orchestration Matrix: a shallow embedding

    This development models [agent_orchestration_matrix.py]: the data
    classes, the running performance metrics of [BaseAgent], the concrete
    [VoiceAgent], and the scheduling methods of [AgentOrchestrationMatrix]
    (selection, assignment, the dispatch pass, task execution and the
    deadline sweep).

    Modelling conventions.
    - Python [float] values are modelled by exact rationals ([Q]); equality
      of scores and averages is [Qeq].
    - A [datetime] is the number of microseconds since 0001-01-01T00:00:00
      (an integer), so [datetime.max] is a constant.
    - A Python [dict] is an association list in insertion order, as
      iteration over [dict.values()] follows insertion order.
    - Agents are shared mutable objects.  The registry [agents] is the
      store of those objects; a running coroutine refers to its agent
      through the agent identifier.
    - [asyncio] is cooperative: code between two suspension points runs
      atomically.  [asyncio.create_task] only appends a coroutine to the
      ready list of the event loop; that coroutine starts once the current
      one suspends. *)

From Stdlib Require Import List String ZArith QArith Bool Lia.
From Stdlib Require Import Permutation Sorted Lqa.
Import ListNotations.

Local Open Scope string_scope.
Local Open Scope Z_scope.

(** ** Enumerations *)

Inductive AgentType :=
  VOICE | VISION | TASK | CREATIVE | ANALYTICAL | SOCIAL | SECURITY
| WORKFLOW | CUSTOM.

Inductive AgentState := IDLE | ACTIVE | BUSY | ERROR | MAINTENANCE.

Inductive TaskPriority := LOW | MEDIUM | HIGH | CRITICAL | EMERGENCY.

(** [TaskPriority.value] *)
Definition priority_value (p : TaskPriority) : Z :=
  match p with
  | LOW => 1 | MEDIUM => 2 | HIGH => 3 | CRITICAL => 4 | EMERGENCY => 5
  end.

Definition AgentState_eqb (a b : AgentState) : bool :=
  match a, b with
  | IDLE, IDLE | ACTIVE, ACTIVE | BUSY, BUSY | ERROR, ERROR
  | MAINTENANCE, MAINTENANCE => true
  | _, _ => false
  end.

(** ** Time *)

Definition datetime := Z.

(** [datetime.max] is 9999-12-31T23:59:59.999999; day 3652059 of the
    proleptic calendar ends there. *)
Definition datetime_max : datetime := 3652059 * 86400000000 - 1.

(** One reading of the two clocks the code consults: [time.time()]
    (seconds, a float) and [datetime.now()]. *)
Record Clock := { time_time : Q; datetime_now : datetime }.

(** ** Opaque payloads

    [Any]-typed values are only stored and passed on.  The outputs built by
    [VoiceAgent] are flat dictionaries of strings and numbers. *)

Inductive PyAtom := PyStr (s : string) | PyFloat (q : Q) | PyBool (b : bool).

Definition PyDict := list (string * PyAtom).

(** ** Data classes *)

Record AgentCapability := {
  cap_name : string;
  cap_description : string;
  input_types : list string;
  output_types : list string;
  confidence_score : Q;
  execution_time_estimate : Q;
  resource_requirements : list (string * string)
}.

Record Task := {
  id : string;
  description : string;
  input_data : list (string * string);
  required_capabilities : list string;
  priority : TaskPriority;
  deadline : option datetime;
  context : list (string * string);
  dependencies : list string;
  created_at : datetime;
  user_id : string
}.

Record AgentResponse := {
  resp_agent_id : string;
  resp_task_id : string;
  success : bool;
  output : option PyDict;
  confidence : Q;
  execution_time : Q;
  error_message : option string;
  metadata : list (string * PyAtom);
  timestamp : datetime
}.

(** The [performance_metrics] dictionary of an agent; its key set is fixed
    by [BaseAgent.__init__]. *)
Record PerformanceMetrics := {
  tasks_completed : Z;
  success_rate : Q;
  average_execution_time : Q;
  last_active : datetime
}.

(** Dataclass equality ([==]) on tasks is field-wise. *)
Definition TaskPriority_eq_dec (a b : TaskPriority) : {a = b} + {a <> b}.
Proof. decide equality. Defined.

Definition Task_eq_dec (a b : Task) : {a = b} + {a <> b}.
Proof.
  pose proof string_dec. pose proof Z.eq_dec. pose proof TaskPriority_eq_dec.
  assert (forall x y : string * string, {x = y} + {x <> y})
    by (decide equality).
  assert (forall x y : list (string * string), {x = y} + {x <> y})
    by (apply list_eq_dec; assumption).
  assert (forall x y : list string, {x = y} + {x <> y})
    by (apply list_eq_dec; assumption).
  assert (forall x y : option datetime, {x = y} + {x <> y})
    by (decide equality).
  decide equality.
Defined.

(** ** Dictionaries in insertion order *)

Module Dict.
Section Dict.
Context {V : Type}.

Definition t := list (string * V).

(** [d.get(k)] *)
Fixpoint get (d : t) (k : string) : option V :=
  match d with
  | [] => None
  | (k', v) :: d' => if String.eqb k k' then Some v else get d' k
  end.

(** [k in d] *)
Definition mem (d : t) (k : string) : bool :=
  match get d k with Some _ => true | None => false end.

(** [d[k] = v]: an existing key keeps its position, a new key goes last. *)
Fixpoint set (d : t) (k : string) (v : V) : t :=
  match d with
  | [] => [(k, v)]
  | (k', v') :: d' =>
      if String.eqb k k' then (k', v) :: d' else (k', v') :: set d' k v
  end.

(** [del d[k]]: the binding of [k] goes; a dictionary has at most one. *)
Fixpoint del (d : t) (k : string) : t :=
  match d with
  | [] => []
  | (k', v') :: d' =>
      if String.eqb k k' then del d' k else (k', v') :: del d' k
  end.

(** [d.values()] *)
Definition values (d : t) : list V := map snd d.

(** [d.items()] *)
Definition items (d : t) : list (string * V) := d.
End Dict.
Arguments t : clear implicits.
End Dict.

(** ** Running performance metrics: [BaseAgent.update_performance_metrics] *)

Definition update_performance_metrics
    (now : Clock) (pm : PerformanceMetrics) (response : AgentResponse)
    : PerformanceMetrics :=
  let total_tasks := tasks_completed pm + 1 in
  let current_successes :=
    (success_rate pm * inject_Z (total_tasks - 1))%Q in
  let rate :=
    if success response
    then ((current_successes + 1) / inject_Z total_tasks)%Q
    else (current_successes / inject_Z total_tasks)%Q in
  let current_avg := average_execution_time pm in
  {| tasks_completed := total_tasks;
     success_rate := rate;
     average_execution_time :=
       ((current_avg * inject_Z (total_tasks - 1) + execution_time response)
        / inject_Z total_tasks)%Q;
     last_active := datetime_now now |}.

(** The metrics [BaseAgent.__init__] installs. *)
Definition initial_performance_metrics (now : Clock) : PerformanceMetrics :=
  {| tasks_completed := 0;
     success_rate := 1;
     average_execution_time := 0;
     last_active := datetime_now now |}.

(** ** Exceptions, and a state monad with them

    [exn] stands for the instances of Python's [Exception]; the payload is
    [str(e)].  The [except Exception] clauses of the source handle exactly
    those. *)

Inductive exn := Exception (msg : string).

Definition str (e : exn) : string := match e with Exception msg => msg end.

Inductive outcome (A : Type) := Returns (a : A) | Raises (e : exn).
Arguments Returns {A} a.
Arguments Raises {A} e.

Definition M (S A : Type) : Type := S -> outcome A * S.

Definition ret {S A} (a : A) : M S A := fun s => (Returns a, s).

Definition raise {S A} (e : exn) : M S A := fun s => (Raises e, s).

Definition bind {S A B} (m : M S A) (k : A -> M S B) : M S B :=
  fun s =>
    match m s with
    | (Returns a, s') => k a s'
    | (Raises e, s') => (Raises e, s')
    end.

Definition get {S} : M S S := fun s => (Returns s, s).

Definition modify {S} (f : S -> S) : M S unit := fun s => (Returns tt, f s).

(** [try: body  except Exception as e: handler e] *)
Definition try_except {S A} (body : M S A) (handler : exn -> M S A) : M S A :=
  fun s =>
    match body s with
    | (Returns a, s') => (Returns a, s')
    | (Raises e, s') => handler e s'
    end.

(** [try: body  finally: fin]: [fin] runs on both exits; an exception of
    [fin] replaces the result of [body]. *)
Definition try_finally {S A} (body : M S A) (fin : M S unit) : M S A :=
  fun s =>
    match body s with
    | (r, s') =>
        match fin s' with
        | (Returns _, s'') => (r, s'')
        | (Raises e, s'') => (Raises e, s'')
        end
    end.

Declare Scope monad_scope.
Delimit Scope monad_scope with monad.
Notation "x <- m ;; k" := (bind m (fun x => k))
  (at level 61, m at next level, right associativity) : monad_scope.
Notation "m ;;; k" := (bind m (fun _ => k))
  (at level 61, right associativity) : monad_scope.

(** ** Agents *)

(** The attributes [BaseAgent.__init__] creates. *)
Record BaseAgent := {
  agent_id : string;
  agent_type : AgentType;
  capabilities : list AgentCapability;
  state : AgentState;
  current_task : option Task;
  performance_metrics : PerformanceMetrics;
  load_factor : Q
}.

Definition set_state (st : AgentState) (a : BaseAgent) : BaseAgent :=
  {| agent_id := agent_id a; agent_type := agent_type a;
     capabilities := capabilities a; state := st;
     current_task := current_task a;
     performance_metrics := performance_metrics a;
     load_factor := load_factor a |}.

Definition set_current_task (t : option Task) (a : BaseAgent) : BaseAgent :=
  {| agent_id := agent_id a; agent_type := agent_type a;
     capabilities := capabilities a; state := state a;
     current_task := t;
     performance_metrics := performance_metrics a;
     load_factor := load_factor a |}.

Definition set_performance_metrics
    (pm : PerformanceMetrics) (a : BaseAgent) : BaseAgent :=
  {| agent_id := agent_id a; agent_type := agent_type a;
     capabilities := capabilities a; state := state a;
     current_task := current_task a;
     performance_metrics := pm;
     load_factor := load_factor a |}.

(** The two abstract methods a subclass supplies.

    [can_handle_task] is a coroutine that computes without suspending.
    [execute_task] suspends while it works: [execute_task_enter] is its
    code up to the suspension, [execute_task_resume] the code after it,
    given the clock reading taken on entry and the one taken on wake-up. *)
Record AgentClass := {
  can_handle_task : BaseAgent -> Task -> Q;
  execute_task_enter : Clock -> BaseAgent -> Task -> BaseAgent;
  execute_task_resume :
    Clock -> Clock -> Task -> M BaseAgent AgentResponse
}.

(** An agent object: its attributes and its class. *)
Record Agent := { self : BaseAgent; class : AgentClass }.

Definition with_self (s : BaseAgent) (a : Agent) : Agent :=
  {| self := s; class := class a |}.

(** ** [VoiceAgent] *)

Definition voice_capabilities_declared : list AgentCapability :=
  [ {| cap_name := "speech_to_text";
       cap_description := "Convert speech to text";
       input_types := ["audio"]; output_types := ["text"];
       confidence_score := 0.9; execution_time_estimate := 2.0;
       resource_requirements := [("memory", "low"); ("cpu", "medium")] |};
    {| cap_name := "text_to_speech";
       cap_description := "Convert text to speech";
       input_types := ["text"]; output_types := ["audio"];
       confidence_score := 0.85; execution_time_estimate := 1.5;
       resource_requirements := [("memory", "low"); ("cpu", "medium")] |};
    {| cap_name := "voice_analysis";
       cap_description := "Analyze voice for emotion and intent";
       input_types := ["audio"]; output_types := ["analysis"];
       confidence_score := 0.75; execution_time_estimate := 3.0;
       resource_requirements := [("memory", "medium"); ("cpu", "high")] |} ].

(** [VoiceAgent.__init__] through [BaseAgent.__init__] *)
Definition VoiceAgent_init (now : Clock) : BaseAgent :=
  {| agent_id := "voice_agent_001";
     agent_type := VOICE;
     capabilities := voice_capabilities_declared;
     state := IDLE;
     current_task := None;
     performance_metrics := initial_performance_metrics now;
     load_factor := 0.0 |}.

(** [x in l] for a list of strings *)
Definition str_in (x : string) (l : list string) : bool :=
  existsb (String.eqb x) l.

(** [VoiceAgent.can_handle_task]: a non-empty intersection of the required
    capabilities with the three voice capabilities. *)
Definition VoiceAgent_can_handle_task (_ : BaseAgent) (task : Task) : Q :=
  let voice_capabilities :=
    ["speech_to_text"; "text_to_speech"; "voice_analysis"] in
  if existsb (fun c => str_in c voice_capabilities)
       (required_capabilities task)
  then 0.9 else 0.0.

(** [repr] of a list of strings, as the f-string of the [ValueError]
    prints it. *)
Definition repr_str_list (l : list string) : string :=
  "[" ++ String.concat ", " (map (fun s => "'" ++ s ++ "'") l) ++ "]".

(** The local variables of a running [VoiceAgent.execute_task]. *)
Record VoiceLocals := {
  v_self : BaseAgent;
  v_start_time : Q;
  v_response : option AgentResponse
}.

Definition on_self (f : BaseAgent -> BaseAgent) (L : VoiceLocals)
    : VoiceLocals :=
  {| v_self := f (v_self L); v_start_time := v_start_time L;
     v_response := v_response L |}.

Definition assign_response (r : AgentResponse) (L : VoiceLocals)
    : VoiceLocals :=
  {| v_self := v_self L; v_start_time := v_start_time L;
     v_response := Some r |}.

(** Reading the local [response]; unbound, it raises [UnboundLocalError]. *)
Definition read_response : M VoiceLocals AgentResponse :=
  fun L =>
    match v_response L with
    | Some r => (Returns r, L)
    | None =>
        (Raises (Exception
           "cannot access local variable 'response' where it is not associated with a value"),
         L)
    end.

(** [VoiceAgent.execute_task] up to [await asyncio.sleep(1.0)]. *)
Definition VoiceAgent_execute_task_enter
    (now : Clock) (a : BaseAgent) (task : Task) : BaseAgent :=
  set_current_task (Some task) (set_state ACTIVE a).

(** The branch on the required capabilities inside the [try]. *)
Definition voice_output (task : Task) : M VoiceLocals PyDict :=
  let caps := required_capabilities task in
  if str_in "speech_to_text" caps then
    ret [("text", PyStr "Transcribed speech content");
         ("confidence", PyFloat 0.92)]
  else if str_in "text_to_speech" caps then
    ret [("audio_url", PyStr "/path/to/generated/audio.wav");
         ("duration", PyFloat 5.2)]
  else if str_in "voice_analysis" caps then
    ret [("emotion", PyStr "neutral"); ("intent", PyStr "question");
         ("confidence", PyFloat 0.78); ("speaker_id", PyStr "user_001")]
  else
    raise (Exception ("Unsupported capability: " ++ repr_str_list caps)).

Definition voice_success_response
    (now : Clock) (task : Task) (out : PyDict) (L : VoiceLocals)
    : AgentResponse :=
  {| resp_agent_id := agent_id (v_self L);
     resp_task_id := id task;
     success := true;
     output := Some out;
     confidence := 0.85;
     execution_time := (time_time now - v_start_time L)%Q;
     error_message := None;
     metadata := [("agent_type", PyStr "voice")];
     timestamp := datetime_now now |}.

Definition voice_failure_response
    (now : Clock) (task : Task) (e : exn) (L : VoiceLocals)
    : AgentResponse :=
  {| resp_agent_id := agent_id (v_self L);
     resp_task_id := id task;
     success := false;
     output := None;
     confidence := 0.0;
     execution_time := (time_time now - v_start_time L)%Q;
     error_message := Some (str e);
     metadata := [("agent_type", PyStr "voice"); ("error", PyStr (str e))];
     timestamp := datetime_now now |}.

(** [VoiceAgent.execute_task] from the wake-up on: the rest of the [try],
    the [except], the [finally], and [return response]. *)
Definition VoiceAgent_execute_task_body
    (now : Clock) (task : Task) : M VoiceLocals AgentResponse :=
  (try_finally
     (try_except
        (out <- voice_output task ;;
         L <- get ;;
         modify (assign_response (voice_success_response now task out L)))
        (fun e =>
         L <- get ;;
         modify (assign_response (voice_failure_response now task e L))))
     (modify (on_self (set_state IDLE)) ;;;
      modify (on_self (set_current_task None)) ;;;
      r <- read_response ;;
      modify (on_self (fun a =>
        set_performance_metrics
          (update_performance_metrics now (performance_metrics a) r) a))) ;;;
   read_response)%monad.

Definition VoiceAgent_execute_task_resume
    (entered now : Clock) (task : Task) : M BaseAgent AgentResponse :=
  fun a =>
    match VoiceAgent_execute_task_body now task
            {| v_self := a; v_start_time := time_time entered;
               v_response := None |} with
    | (r, L) => (r, v_self L)
    end.

Definition VoiceAgent_class : AgentClass :=
  {| can_handle_task := VoiceAgent_can_handle_task;
     execute_task_enter := VoiceAgent_execute_task_enter;
     execute_task_resume := VoiceAgent_execute_task_resume |}.

(** [VoiceAgent()] *)
Definition VoiceAgent (now : Clock) : Agent :=
  {| self := VoiceAgent_init now; class := VoiceAgent_class |}.


(** ** [list.sort(key=..., reverse=True)]

    The sort is stable, also with [reverse=True]: elements go in descending
    key order and elements with equal keys keep their original order. *)

Section SortReverse.
Context {A K : Type} (key : A -> K) (ltb : K -> K -> bool).

Fixpoint insert_reverse (x : A) (l : list A) : list A :=
  match l with
  | [] => [x]
  | y :: l' =>
      if ltb (key x) (key y) then y :: insert_reverse x l' else x :: l
  end.

Fixpoint sort_reverse (l : list A) : list A :=
  match l with
  | [] => []
  | x :: l' => insert_reverse x (sort_reverse l')
  end.
End SortReverse.

Definition Qlt_bool (a b : Q) : bool := negb (Qle_bool b a).

(** The key of the queue sort: [(t.priority.value, t.deadline or
    datetime.max)]; a [datetime] is always truthy. *)
Definition task_sort_key (t : Task) : Z * datetime :=
  (priority_value (priority t),
   match deadline t with Some d => d | None => datetime_max end).

(** [<] on pairs is lexicographic. *)
Definition pair_ltb (a b : Z * Z) : bool :=
  (fst a <? fst b) || ((fst a =? fst b) && (snd a <? snd b)).

(** [list.remove(x)]: drops the first element equal to [x]; [None] stands
    for the [ValueError] raised when there is none. *)
Fixpoint list_remove (x : Task) (l : list Task) : option (list Task) :=
  match l with
  | [] => None
  | y :: l' =>
      if Task_eq_dec y x then Some l'
      else match list_remove x l' with
           | Some r => Some (y :: r)
           | None => None
           end
  end.

(** [list.index(x)]: position of the first element equal to [x]; [None]
    stands for the [ValueError]. *)
Fixpoint list_index (x : Task) (l : list Task) : option nat :=
  match l with
  | [] => None
  | y :: l' =>
      if Task_eq_dec y x then Some O
      else match list_index x l' with
           | Some i => Some (S i)
           | None => None
           end
  end.

(** ** The orchestration matrix and the event loop *)

Record OrchestrationMetrics := {
  total_tasks : Z;
  successful_tasks : Z;
  failed_tasks : Z;
  average_completion_time : Q;
  agent_utilization : Dict.t Q
}.

(** A coroutine handed to [asyncio.create_task] that has not started. *)
Inductive Coroutine :=
| OrchestrationLoop
| ExecuteTaskWithAgent (aid : string) (task : Task).

(** A coroutine waiting at its suspension point: the loop in
    [asyncio.sleep(0.1)], or [_execute_task_with_agent] inside
    [agent.execute_task], entered at the recorded clock reading. *)
Inductive Suspended :=
| LoopSleeping
| AgentExecuting (aid : string) (task : Task) (entered : Clock).

(** The attributes of [AgentOrchestrationMatrix], and with them the two
    lists of the event loop: [ready] and [suspended]. *)
Record AgentOrchestrationMatrix := {
  agents : Dict.t Agent;
  task_queue : list Task;
  active_tasks : Dict.t Task;
  completed_tasks : Dict.t AgentResponse;
  orchestration_metrics : OrchestrationMetrics;
  is_running : bool;
  ready : list Coroutine;
  suspended : list Suspended
}.

Definition with_agents (x : Dict.t Agent) (m : AgentOrchestrationMatrix) :=
  {| agents := x; task_queue := task_queue m;
     active_tasks := active_tasks m; completed_tasks := completed_tasks m;
     orchestration_metrics := orchestration_metrics m;
     is_running := is_running m; ready := ready m;
     suspended := suspended m |}.

Definition with_task_queue (x : list Task) (m : AgentOrchestrationMatrix) :=
  {| agents := agents m; task_queue := x;
     active_tasks := active_tasks m; completed_tasks := completed_tasks m;
     orchestration_metrics := orchestration_metrics m;
     is_running := is_running m; ready := ready m;
     suspended := suspended m |}.

Definition with_active_tasks (x : Dict.t Task) (m : AgentOrchestrationMatrix) :=
  {| agents := agents m; task_queue := task_queue m;
     active_tasks := x; completed_tasks := completed_tasks m;
     orchestration_metrics := orchestration_metrics m;
     is_running := is_running m; ready := ready m;
     suspended := suspended m |}.

Definition with_completed_tasks
    (x : Dict.t AgentResponse) (m : AgentOrchestrationMatrix) :=
  {| agents := agents m; task_queue := task_queue m;
     active_tasks := active_tasks m; completed_tasks := x;
     orchestration_metrics := orchestration_metrics m;
     is_running := is_running m; ready := ready m;
     suspended := suspended m |}.

Definition with_metrics
    (x : OrchestrationMetrics) (m : AgentOrchestrationMatrix) :=
  {| agents := agents m; task_queue := task_queue m;
     active_tasks := active_tasks m; completed_tasks := completed_tasks m;
     orchestration_metrics := x;
     is_running := is_running m; ready := ready m;
     suspended := suspended m |}.

Definition with_is_running (x : bool) (m : AgentOrchestrationMatrix) :=
  {| agents := agents m; task_queue := task_queue m;
     active_tasks := active_tasks m; completed_tasks := completed_tasks m;
     orchestration_metrics := orchestration_metrics m;
     is_running := x; ready := ready m;
     suspended := suspended m |}.

Definition with_ready (x : list Coroutine) (m : AgentOrchestrationMatrix) :=
  {| agents := agents m; task_queue := task_queue m;
     active_tasks := active_tasks m; completed_tasks := completed_tasks m;
     orchestration_metrics := orchestration_metrics m;
     is_running := is_running m; ready := x;
     suspended := suspended m |}.

Definition with_suspended
    (x : list Suspended) (m : AgentOrchestrationMatrix) :=
  {| agents := agents m; task_queue := task_queue m;
     active_tasks := active_tasks m; completed_tasks := completed_tasks m;
     orchestration_metrics := orchestration_metrics m;
     is_running := is_running m; ready := ready m;
     suspended := x |}.

Definition add_total (om : OrchestrationMetrics) : OrchestrationMetrics :=
  {| total_tasks := total_tasks om + 1;
     successful_tasks := successful_tasks om;
     failed_tasks := failed_tasks om;
     average_completion_time := average_completion_time om;
     agent_utilization := agent_utilization om |}.

Definition add_successful (om : OrchestrationMetrics) : OrchestrationMetrics :=
  {| total_tasks := total_tasks om;
     successful_tasks := successful_tasks om + 1;
     failed_tasks := failed_tasks om;
     average_completion_time := average_completion_time om;
     agent_utilization := agent_utilization om |}.

Definition add_failed (om : OrchestrationMetrics) : OrchestrationMetrics :=
  {| total_tasks := total_tasks om;
     successful_tasks := successful_tasks om;
     failed_tasks := failed_tasks om + 1;
     average_completion_time := average_completion_time om;
     agent_utilization := agent_utilization om |}.

Definition with_utilization
    (u : Dict.t Q) (om : OrchestrationMetrics) : OrchestrationMetrics :=
  {| total_tasks := total_tasks om;
     successful_tasks := successful_tasks om;
     failed_tasks := failed_tasks om;
     average_completion_time := average_completion_time om;
     agent_utilization := u |}.

(** [AgentOrchestrationMatrix.__init__], on an event loop with nothing
    scheduled. *)
Definition AgentOrchestrationMatrix_init : AgentOrchestrationMatrix :=
  {| agents := []; task_queue := []; active_tasks := [];
     completed_tasks := [];
     orchestration_metrics :=
       {| total_tasks := 0; successful_tasks := 0; failed_tasks := 0;
          average_completion_time := 0.0; agent_utilization := [] |};
     is_running := false; ready := []; suspended := [] |}.

(** [register_agent] *)
Definition register_agent (agent : Agent) (m : AgentOrchestrationMatrix)
    : AgentOrchestrationMatrix :=
  let aid := agent_id (self agent) in
  let m1 := with_agents (Dict.set (agents m) aid agent) m in
  with_metrics
    (with_utilization
       (Dict.set (agent_utilization (orchestration_metrics m1)) aid 0.0%Q)
       (orchestration_metrics m1))
    m1.

(** [submit_task]: the loop coroutine is created, not started, when
    [is_running] is false. *)
Definition submit_task (task : Task) (m : AgentOrchestrationMatrix)
    : string * AgentOrchestrationMatrix :=
  let m1 := with_task_queue (task_queue m ++ [task]) m in
  let m2 := with_metrics (add_total (orchestration_metrics m1)) m1 in
  let m3 :=
    if negb (is_running m2)
    then with_ready (ready m2 ++ [OrchestrationLoop]) m2
    else m2 in
  (id task, m3).

(** The dictionaries [get_task_status] returns. *)
Inductive TaskStatus :=
| StatusCompleted (success : bool) (output : option PyDict)
    (execution_time : Q) (agent_id : string)
| StatusActive (task : Task)
| StatusQueued (position : nat)
| StatusNotFound.

(** [get_task_status] *)
Definition get_task_status (m : AgentOrchestrationMatrix) (task_id : string)
    : outcome TaskStatus :=
  match Dict.get (completed_tasks m) task_id with
  | Some response =>
      Returns (StatusCompleted (success response) (output response)
                 (execution_time response) (resp_agent_id response))
  | None =>
      match Dict.get (active_tasks m) task_id with
      | Some task => Returns (StatusActive task)
      | None =>
          match find (fun task => String.eqb (id task) task_id)
                  (task_queue m) with
          | Some task =>
              match list_index task (task_queue m) with
              | Some i => Returns (StatusQueued i)
              | None => Raises (Exception "ValueError")
              end
          | None => Returns StatusNotFound
          end
      end
  end.

(** ** Selection: [_select_best_agent]

    An agent is referred to by its key in the registry; iterating the
    registry in insertion order visits the agents in registration order. *)

Definition is_idle (a : Agent) : bool := AgentState_eqb (state (self a)) IDLE.

(** The agent's confidence for the task, [agent.can_handle_task(task)]. *)
Definition fitness (a : Agent) (task : Task) : Q :=
  can_handle_task (class a) (self a) task.

Definition composite_score (a : Agent) (task : Task) : Q :=
  let confidence := fitness a task in
  let performance_score := success_rate (performance_metrics (self a)) in
  let load_score := (1.0 - load_factor (self a))%Q in
  (confidence * 0.5 + performance_score * 0.3 + load_score * 0.2)%Q.

(** The list [agent_scores] the loop over the registry builds. *)
Definition agent_scores (registry : Dict.t Agent) (task : Task)
    : list ((string * Agent) * Q) :=
  flat_map
    (fun entry : string * Agent =>
       let agent := snd entry in
       if negb (is_idle agent) then []
       else if Qlt_bool 0 (fitness agent task)
            then [(entry, composite_score agent task)]
            else [])
    (Dict.items registry).

Definition _select_best_agent (m : AgentOrchestrationMatrix) (task : Task)
    : option (string * Agent) :=
  match agents m with
  | [] => None
  | _ =>
      match agent_scores (agents m) task with
      | [] => None
      | scores =>
          option_map fst (hd_error (sort_reverse snd Qlt_bool scores))
      end
  end.

(** ** The dispatch pass: [_assign_task_to_agent], [_process_task_queue] *)

Definition _assign_task_to_agent (task : Task)
    : M AgentOrchestrationMatrix bool :=
  fun m =>
    match _select_best_agent m task with
    | Some (ref, best_agent) =>
        if AgentState_eqb (state (self best_agent)) IDLE then
          let m1 :=
            with_active_tasks (Dict.set (active_tasks m) (id task) task) m in
          (Returns true,
           with_ready (ready m1 ++ [ExecuteTaskWithAgent ref task]) m1)
        else (Returns false, m)
    | None => (Returns false, m)
    end.

(** The loop [for task in self.task_queue], returning [tasks_to_remove]. *)
Fixpoint assign_each (tasks : list Task)
    : M AgentOrchestrationMatrix (list Task) :=
  match tasks with
  | [] => ret []
  | task :: rest =>
      (assigned <- _assign_task_to_agent task ;;
       tasks_to_remove <- assign_each rest ;;
       ret (if assigned : bool then task :: tasks_to_remove
            else tasks_to_remove))%monad
  end.

Definition queue_remove (task : Task) : M AgentOrchestrationMatrix unit :=
  fun m =>
    match list_remove task (task_queue m) with
    | Some q => (Returns tt, with_task_queue q m)
    | None => (Raises (Exception "list.remove(x): x not in list"), m)
    end.

(** The loop [for task in tasks_to_remove]. *)
Fixpoint remove_each (tasks : list Task) : M AgentOrchestrationMatrix unit :=
  match tasks with
  | [] => ret tt
  | task :: rest => (queue_remove task ;;; remove_each rest)%monad
  end.

Definition sort_task_queue (q : list Task) : list Task :=
  sort_reverse task_sort_key pair_ltb q.

Definition _process_task_queue : M AgentOrchestrationMatrix unit :=
  fun m =>
    match task_queue m with
    | [] => (Returns tt, m)
    | _ =>
        let m1 := with_task_queue (sort_task_queue (task_queue m)) m in
        (tasks_to_remove <- assign_each (task_queue m1) ;;
         remove_each tasks_to_remove)%monad m1
    end.

(** ** Task execution: [_execute_task_with_agent] *)

Definition error_response (now : Clock) (aid : string) (task : Task) (e : exn)
    : AgentResponse :=
  {| resp_agent_id := aid;
     resp_task_id := id task;
     success := false;
     output := None;
     confidence := 0.0;
     execution_time := 0.0;
     error_message := Some (str e);
     metadata := [("orchestration_error", PyBool true)];
     timestamp := datetime_now now |}.

(** [self.orchestration_metrics['agent_utilization'][agent.agent_id] += 1] *)
Definition increment_utilization (aid : string)
    : M AgentOrchestrationMatrix unit :=
  fun m =>
    let om := orchestration_metrics m in
    match Dict.get (agent_utilization om) aid with
    | Some u =>
        (Returns tt,
         with_metrics
           (with_utilization (Dict.set (agent_utilization om) aid (u + 1)%Q)
              om) m)
    | None => (Raises (Exception ("'" ++ aid ++ "'")), m)
    end.

(** [self.completed_tasks[task.id] = response] *)
Definition store_response (task : Task) (response : AgentResponse)
    : M AgentOrchestrationMatrix unit :=
  modify (fun m =>
    with_completed_tasks
      (Dict.set (completed_tasks m) (id task) response) m).

(** The update of the two counters after a response. *)
Definition count_response (response : AgentResponse)
    : M AgentOrchestrationMatrix unit :=
  modify (fun m =>
    with_metrics
      ((if success response then add_successful else add_failed)
         (orchestration_metrics m)) m).

(** The [except Exception as e] block. *)
Definition on_exception (now : Clock) (aid : string) (task : Task) (e : exn)
    : M AgentOrchestrationMatrix unit :=
  (store_response task (error_response now aid task e) ;;;
   modify (fun m =>
     with_metrics (add_failed (orchestration_metrics m)) m))%monad.

(** The [finally] block. *)
Definition discard_active (task : Task) : M AgentOrchestrationMatrix unit :=
  modify (fun m =>
    if Dict.mem (active_tasks m) (id task)
    then with_active_tasks (Dict.del (active_tasks m) (id task)) m
    else m).

(** A method call on the agent object [a] stored under [ref]: the call
    runs on the attributes and the store keeps the result. *)
Definition on_agent {A} (ref : string) (a : Agent) (call : M BaseAgent A)
    : M AgentOrchestrationMatrix A :=
  fun m =>
    match call (self a) with
    | (r, s') => (r, with_agents (Dict.set (agents m) ref (with_self s' a)) m)
    end.

(** The [try]/[except]/[finally] of [_execute_task_with_agent] around the
    part of the [try] block that is still to run, [awaited], which yields
    the response. *)
Definition _execute_task_with_agent_tail
    (now : Clock) (aid : string) (task : Task)
    (awaited : M AgentOrchestrationMatrix AgentResponse)
    : M AgentOrchestrationMatrix unit :=
  try_finally
    (try_except
       (response <- awaited ;;
        store_response task response ;;;
        count_response response)%monad
       (on_exception now aid task))
    (discard_active task).

(** [_execute_task_with_agent] from its start to the suspension inside
    [agent.execute_task]; a [KeyError] of the utilization update ends the
    coroutine through [except] and [finally].  A reference to no object
    does not occur: only registered agents are selected and none is ever
    unregistered. *)
Definition _execute_task_with_agent_start
    (now : Clock) (ref : string) (task : Task) (m : AgentOrchestrationMatrix)
    : AgentOrchestrationMatrix :=
  match Dict.get (agents m) ref with
  | None => m
  | Some a =>
      let aid := agent_id (self a) in
      match increment_utilization aid m with
      | (Raises e, m1) =>
          snd (_execute_task_with_agent_tail now aid task (raise e) m1)
      | (Returns _, m1) =>
          let a' :=
            with_self (execute_task_enter (class a) now (self a) task) a in
          with_suspended (suspended m1 ++ [AgentExecuting ref task now])
            (with_agents (Dict.set (agents m1) ref a') m1)
      end
  end.

(** [_execute_task_with_agent] from the wake-up inside
    [agent.execute_task] to its end.  The outcome tells whether an
    exception leaves the coroutine. *)
Definition _execute_task_with_agent_resume
    (entered now : Clock) (ref : string) (task : Task)
    : M AgentOrchestrationMatrix unit :=
  fun m =>
    match Dict.get (agents m) ref with
    | None => (Returns tt, m)
    | Some a =>
        _execute_task_with_agent_tail now (agent_id (self a)) task
          (on_agent ref a (execute_task_resume (class a) entered now task))
          m
    end.

(** ** The deadline sweep: [_monitor_active_tasks] *)

Definition timeout_response (current_time : datetime) (task_id : string)
    : AgentResponse :=
  {| resp_agent_id := "orchestration_matrix";
     resp_task_id := task_id;
     success := false;
     output := None;
     confidence := 0.0;
     execution_time := 0.0;
     error_message := Some "Task exceeded deadline";
     metadata := [("timeout", PyBool true)];
     timestamp := current_time |}.

(** [task.deadline and current_time > task.deadline] *)
Definition deadline_exceeded (current_time : datetime) (task : Task) : bool :=
  match deadline task with
  | Some d => d <? current_time
  | None => false
  end.

(** The body of the sweep for one item of the snapshot.  The keys of a
    dictionary are distinct, so the [del] finds its key. *)
Definition expire (current_time : datetime) (m : AgentOrchestrationMatrix)
    (item : string * Task) : AgentOrchestrationMatrix :=
  let (task_id, task) := item in
  if deadline_exceeded current_time task then
    let m1 :=
      with_completed_tasks
        (Dict.set (completed_tasks m) task_id
           (timeout_response current_time task_id)) m in
    let m2 := with_metrics (add_failed (orchestration_metrics m1)) m1 in
    with_active_tasks (Dict.del (active_tasks m2) task_id) m2
  else m.

Definition _monitor_active_tasks (now : Clock) (m : AgentOrchestrationMatrix)
    : AgentOrchestrationMatrix :=
  let current_time := datetime_now now in
  fold_left (expire current_time) (Dict.items (active_tasks m)) m.

(** ** The loop: [_orchestration_loop] *)

Definition is_empty {A} (l : list A) : bool :=
  match l with [] => true | _ => false end.

(** One turn of the [while] loop up to [asyncio.sleep(0.1)], or the exit of
    the loop through [finally]. *)
Definition loop_iteration (now : Clock) (m : AgentOrchestrationMatrix)
    : AgentOrchestrationMatrix :=
  if negb (is_empty (task_queue m)) || negb (is_empty (active_tasks m)) then
    match ((if negb (is_empty (task_queue m)) then _process_task_queue
            else ret tt) ;;;
           modify (_monitor_active_tasks now))%monad m with
    | (Returns _, m') => with_suspended (suspended m' ++ [LoopSleeping]) m'
    | (Raises _, m') => with_is_running false m'
    end
  else with_is_running false m.

Definition _orchestration_loop_start (now : Clock)
    (m : AgentOrchestrationMatrix) : AgentOrchestrationMatrix :=
  loop_iteration now (with_is_running true m).

(** ** The event loop *)

Definition start_coroutine (now : Clock) (c : Coroutine)
    (m : AgentOrchestrationMatrix) : AgentOrchestrationMatrix :=
  match c with
  | OrchestrationLoop => _orchestration_loop_start now m
  | ExecuteTaskWithAgent ref task =>
      _execute_task_with_agent_start now ref task m
  end.

(** The event loop starts the oldest created coroutine. *)
Definition run_ready (now : Clock) (m : AgentOrchestrationMatrix)
    : AgentOrchestrationMatrix :=
  match ready m with
  | [] => m
  | c :: rest => start_coroutine now c (with_ready rest m)
  end.

Definition resume_coroutine (now : Clock) (s : Suspended)
    (m : AgentOrchestrationMatrix) : AgentOrchestrationMatrix :=
  match s with
  | LoopSleeping => loop_iteration now m
  | AgentExecuting ref task entered =>
      snd (_execute_task_with_agent_resume entered now ref task m)
  end.

(** The event loop wakes the [i]-th suspended coroutine. *)
Definition wake (now : Clock) (i : nat) (m : AgentOrchestrationMatrix)
    : AgentOrchestrationMatrix :=
  match nth_error (suspended m) i with
  | None => m
  | Some s =>
      resume_coroutine now s
        (with_suspended (firstn i (suspended m) ++ skipn (S i) (suspended m))
           m)
  end.

(** The tasks the agent stored under [ref] is executing: the coroutines
    suspended inside its [execute_task]. *)
Definition executing (ref : string) (m : AgentOrchestrationMatrix)
    : list Task :=
  flat_map
    (fun s =>
       match s with
       | AgentExecuting ref' task _ =>
           if String.eqb ref' ref then [task] else []
       | LoopSleeping => []
       end)
    (suspended m).

(** ** Vocabulary of the statements *)





(** Task identifiers are in one collection only: the queued ones are
    distinct and none of them is in flight or completed. *)
Definition queued_ids_fresh (m : AgentOrchestrationMatrix) : Prop :=
  NoDup (map id (task_queue m)) /\
  forall task, In task (task_queue m) ->
    Dict.get (active_tasks m) (id task) = None /\
    Dict.get (completed_tasks m) (id task) = None.

(** The two counters of completions, added up. *)
Definition completions_counted (m : AgentOrchestrationMatrix) : Z :=
  successful_tasks (orchestration_metrics m) +
  failed_tasks (orchestration_metrics m).

(** [a] may stand before [b] in the sorted queue: the key of [a] is not
    below the key of [b]. *)
Definition precedes (a b : Task) : Prop :=
  pair_ltb (task_sort_key a) (task_sort_key b) = false.

(** The filter of the selector as the code tests it. *)
Definition eligible (task : Task) (entry : string * Agent) : bool :=
  is_idle (snd entry) && Qlt_bool 0 (fitness (snd entry) task).

(** What [_assign_task_to_agent] answers for a task, and the coroutine it
    creates. *)
Definition assignable (m : AgentOrchestrationMatrix) (task : Task) : bool :=
  match _select_best_agent m task with
  | Some (_, best_agent) => AgentState_eqb (state (self best_agent)) IDLE
  | None => false
  end.

Definition launch (m : AgentOrchestrationMatrix) (task : Task)
    : list Coroutine :=
  match _select_best_agent m task with
  | Some (ref, best_agent) =>
      if AgentState_eqb (state (self best_agent)) IDLE
      then [ExecuteTaskWithAgent ref task] else []
  | None => []
  end.

(** [self.active_tasks[task.id] = task] *)
Definition mark_active (d : Dict.t Task) (task : Task) : Dict.t Task :=
  Dict.set d (id task) task.

(** The attributes a dispatch pass leaves alone. *)
Definition same_rest (m m' : AgentOrchestrationMatrix) : Prop :=
  agents m' = agents m /\
  completed_tasks m' = completed_tasks m /\
  orchestration_metrics m' = orchestration_metrics m /\
  is_running m' = is_running m /\
  suspended m' = suspended m.

(** Identifiers tell the tasks of a list apart. *)
Definition ids_distinct (q : list Task) : Prop :=
  forall x y, In x q -> In y q -> id x = id y -> x = y.


(** Number of in-flight tasks past their deadline. *)
Definition expired_count
    (current_time : datetime) (items : list (string * Task)) : Z :=
  Z.of_nat
    (List.length
       (filter (fun item => deadline_exceeded current_time (snd item))
          items)).

(** ** Concrete runs *)

Module Scenario.

(** The clocks, [ms] milliseconds after the start. *)
Definition at_ms (ms : Z) : Clock :=
  {| time_time := ms # 1000; datetime_now := ms * 1000 |}.

Definition make_task (task_id : string) (caps : list string)
    (p : TaskPriority) (d : option datetime) : Task :=
  {| id := task_id; description := "test task"; input_data := [];
     required_capabilities := caps; priority := p; deadline := d;
     context := []; dependencies := []; created_at := 0;
     user_id := "test_user" |}.

Definition submit (task : Task) (m : AgentOrchestrationMatrix)
    : AgentOrchestrationMatrix :=
  snd (submit_task task m).

(** A matrix with the one [VoiceAgent] registered. *)
Definition one_voice_agent : AgentOrchestrationMatrix :=
  register_agent (VoiceAgent (at_ms 0)) AgentOrchestrationMatrix_init.

(** *** Two tasks for one agent *)

Definition first_task : Task :=
  make_task "task-1" ["speech_to_text"] HIGH None.

Definition second_task : Task :=
  make_task "task-2" ["text_to_speech"] HIGH None.

Definition two_submitted : AgentOrchestrationMatrix :=
  submit second_task (submit first_task one_voice_agent).

(** The loop starts and makes its first dispatch pass. *)
Definition after_first_pass : AgentOrchestrationMatrix :=
  run_ready (at_ms 0) two_submitted.

(** The event loop starts the three coroutines created so far. *)
Definition both_started : AgentOrchestrationMatrix :=
  Nat.iter 3 (run_ready (at_ms 0)) after_first_pass.

(** *** Three tasks of one priority *)

Definition early : Task :=
  make_task "early" ["speech_to_text"] HIGH (Some 10000000).

Definition late : Task :=
  make_task "late" ["speech_to_text"] HIGH (Some 20000000).

Definition open_ended : Task :=
  make_task "open-ended" ["speech_to_text"] HIGH None.

(** Submitted in the order early, late, open-ended; no agent registered. *)
Definition three_queued : AgentOrchestrationMatrix :=
  submit open_ended
    (submit late (submit early AgentOrchestrationMatrix_init)).

Definition three_sorted : AgentOrchestrationMatrix :=
  snd (_process_task_queue three_queued).

(** *** A deadline that passes during the execution

    The task is due 500 ms after the start; the agent works for a
    second. *)

Definition urgent : Task :=
  make_task "task-1" ["speech_to_text"] HIGH (Some 500000).

(** Submitted, assigned by the first pass, execution started. *)
Definition urgent_started : AgentOrchestrationMatrix :=
  run_ready (at_ms 0) (run_ready (at_ms 0) (submit urgent one_voice_agent)).

(** The agent object once the execution has started. *)
Definition urgent_agent : Agent :=
  with_self
    (VoiceAgent_execute_task_enter (at_ms 0) (VoiceAgent_init (at_ms 0))
       urgent)
    (VoiceAgent (at_ms 0)).

(** The loop wakes every 100 ms and sweeps; the sweep at 600 ms is the
    first after the deadline.  A woken coroutine that suspends again goes
    to the end of the suspended ones. *)
Definition urgent_swept : AgentOrchestrationMatrix :=
  fold_left (fun m ms => wake (at_ms ms) 1 m) [200; 300; 400; 500; 600]
    (wake (at_ms 100) 0 urgent_started).

(** The loop finds nothing queued or in flight at 700 ms and ends; the
    agent finishes at 1000 ms. *)
Definition urgent_finished : AgentOrchestrationMatrix :=
  wake (at_ms 1000) 0 (wake (at_ms 700) 1 urgent_swept).

(** *** An agent whose [execute_task] raises

    It becomes active, works, and raises without restoring its state. *)

Definition RaisingAgent_class : AgentClass :=
  {| can_handle_task := fun _ _ => 1%Q;
     execute_task_enter :=
       fun _ a task => set_current_task (Some task) (set_state ACTIVE a);
     execute_task_resume :=
       fun _ _ _ => raise (Exception "worker failure") |}.

Definition RaisingAgent (now : Clock) : Agent :=
  {| self :=
       {| agent_id := "raising_agent_001"; agent_type := CUSTOM;
          capabilities := []; state := IDLE; current_task := None;
          performance_metrics := initial_performance_metrics now;
          load_factor := 0.0 |};
     class := RaisingAgent_class |}.

Definition raising_started : AgentOrchestrationMatrix :=
  run_ready (at_ms 0)
    (run_ready (at_ms 0)
       (submit first_task
          (register_agent (RaisingAgent (at_ms 0))
             AgentOrchestrationMatrix_init))).

(** The agent object once the execution has started. *)
Definition raising_agent : Agent :=
  with_self
    (execute_task_enter RaisingAgent_class (at_ms 0)
       (self (RaisingAgent (at_ms 0))) first_task)
    (RaisingAgent (at_ms 0)).

(** The execution, second of the suspended coroutines, wakes; the turns
    of the loop in between change nothing. *)
Definition raising_finished : AgentOrchestrationMatrix :=
  wake (at_ms 1000) 1 raising_started.

(** *** Two agents of equal fitness

    Success rates 0.5 and 0.8, registered in this order. *)

Definition voice_agent_rated (aid : string) (rate : Q) : Agent :=
  {| self :=
       {| agent_id := aid; agent_type := VOICE;
          capabilities := voice_capabilities_declared;
          state := IDLE; current_task := None;
          performance_metrics :=
            {| tasks_completed := 10; success_rate := rate;
               average_execution_time := 1.0; last_active := 0 |};
          load_factor := 0.0 |};
     class := VoiceAgent_class |}.

Definition two_agents : AgentOrchestrationMatrix :=
  register_agent (voice_agent_rated "voice_b" 0.8)
    (register_agent (voice_agent_rated "voice_a" 0.5)
       AgentOrchestrationMatrix_init).

(** *** A task no agent can take *)

Definition unmatched : Task :=
  make_task "task-3" ["translation"] CRITICAL None.

Definition mixed_queue : AgentOrchestrationMatrix :=
  submit unmatched (submit first_task one_voice_agent).

(** *** Three completed responses *)



End Scenario.

(** ** Status reports: [get_status], [get_orchestration_status] *)

(** [agent_type.value] *)
Definition AgentType_value (t : AgentType) : string :=
  match t with
  | VOICE => "voice" | VISION => "vision" | TASK => "task"
  | CREATIVE => "creative" | ANALYTICAL => "analytical"
  | SOCIAL => "social" | SECURITY => "security" | WORKFLOW => "workflow"
  | CUSTOM => "custom"
  end.

(** [state.value] *)
Definition AgentState_value (s : AgentState) : string :=
  match s with
  | IDLE => "idle" | ACTIVE => "active" | BUSY => "busy"
  | ERROR => "error" | MAINTENANCE => "maintenance"
  end.

(** The dictionary [BaseAgent.get_status] returns. *)
Record AgentStatus := {
  status_agent_id : string;
  status_agent_type : string;
  status_state : string;
  status_load_factor : Q;
  status_capabilities : list string;
  status_performance_metrics : PerformanceMetrics;
  status_current_task : option string
}.

(** [BaseAgent.get_status]; a task object is truthy. *)
Definition get_status (a : BaseAgent) : AgentStatus :=
  {| status_agent_id := agent_id a;
     status_agent_type := AgentType_value (agent_type a);
     status_state := AgentState_value (state a);
     status_load_factor := load_factor a;
     status_capabilities := map cap_name (capabilities a);
     status_performance_metrics := performance_metrics a;
     status_current_task := option_map id (current_task a) |}.

(** The dictionary [get_orchestration_status] returns. *)
Record OrchestrationStatus := {
  status_is_running : bool;
  status_queued_tasks : nat;
  status_active_tasks : nat;
  status_completed_tasks : nat;
  status_registered_agents : nat;
  status_metrics : OrchestrationMetrics;
  status_agent_statuses : Dict.t AgentStatus
}.

(** [get_orchestration_status]: the loop over the registry fills
    [agent_statuses] key by key. *)
Definition get_orchestration_status (m : AgentOrchestrationMatrix)
    : OrchestrationStatus :=
  let agent_statuses :=
    fold_left
      (fun (d : Dict.t AgentStatus) (entry : string * Agent) =>
         Dict.set d (fst entry) (get_status (self (snd entry))))
      (Dict.items (agents m)) [] in
  {| status_is_running := is_running m;
     status_queued_tasks := List.length (task_queue m);
     status_active_tasks := List.length (active_tasks m);
     status_completed_tasks := List.length (completed_tasks m);
     status_registered_agents := List.length (agents m);
     status_metrics := orchestration_metrics m;
     status_agent_statuses := agent_statuses |}.

(** [shutdown]: the flag goes down; the thread pool it also shuts down
    never received any work. *)
Definition shutdown (m : AgentOrchestrationMatrix)
    : AgentOrchestrationMatrix :=
  with_is_running false m.

(** ** Runs of the whole system

    What can happen between two suspension points: a caller registers an
    agent, submits a task or shuts the matrix down, or the event loop
    starts the oldest created coroutine or wakes a suspended one. *)

Inductive Event :=
| Register (agent : Agent)
| Submit (task : Task)
| Shutdown
| RunReady (now : Clock)
| Wake (now : Clock) (i : nat).

Definition apply_event (m : AgentOrchestrationMatrix) (e : Event)
    : AgentOrchestrationMatrix :=
  match e with
  | Register agent => register_agent agent m
  | Submit task => snd (submit_task task m)
  | Shutdown => shutdown m
  | RunReady now => run_ready now m
  | Wake now i => wake now i m
  end.

Definition run_events (m : AgentOrchestrationMatrix) (es : list Event)
    : AgentOrchestrationMatrix :=
  fold_left apply_event es m.

(** The task is accounted for: it is queued, or its identifier is in
    flight, or a response is recorded for its identifier. *)
Definition tracked (m : AgentOrchestrationMatrix) (task : Task) : Prop :=
  In task (task_queue m) \/
  Dict.mem (active_tasks m) (id task) = true \/
  Dict.mem (completed_tasks m) (id task) = true.

(** The agent reference and the task of a coroutine that executes a task,
    created or suspended. *)
Definition coroutine_work (c : Coroutine) : option (string * Task) :=
  match c with
  | OrchestrationLoop => None
  | ExecuteTaskWithAgent ref task => Some (ref, task)
  end.

Definition suspended_work (s : Suspended) : option (string * Task) :=
  match s with
  | LoopSleeping => None
  | AgentExecuting ref task _ => Some (ref, task)
  end.

(** The executions under way: created and not started, or suspended inside
    [execute_task]. *)
Definition executions (m : AgentOrchestrationMatrix)
    : list (string * Task) :=
  (flat_map (fun c => match coroutine_work c with
                      | Some w => [w] | None => [] end) (ready m)
   ++ flat_map (fun s => match suspended_work s with
                         | Some w => [w] | None => [] end) (suspended m))%list.

(** Every execution under way refers to a registered agent, and every
    in-flight entry is filed under the identifier of its task and has an
    execution under way for a task with that identifier. *)
Definition executions_consistent (m : AgentOrchestrationMatrix) : Prop :=
  (forall ref task, In (ref, task) (executions m) ->
     Dict.mem (agents m) ref = true) /\
  (forall k task, In (k, task) (active_tasks m) ->
     k = id task /\
     exists ref task', In (ref, task') (executions m) /\ id task' = k).

(** What the sweep does to the in-flight map for one item of its
    snapshot. *)
Definition drop_expired (current_time : datetime) (d : Dict.t Task)
    (item : string * Task) : Dict.t Task :=
  if deadline_exceeded current_time (snd item) then Dict.del d (fst item)
  else d.

(** What every step keeps: the registered keys, the recorded responses,
    and the count of submissions. *)
Definition keeps_records (m m' : AgentOrchestrationMatrix) : Prop :=
  (forall k, Dict.mem (agents m) k = true -> Dict.mem (agents m') k = true) /\
  (forall k, Dict.mem (completed_tasks m) k = true ->
             Dict.mem (completed_tasks m') k = true) /\
  total_tasks (orchestration_metrics m')
  = total_tasks (orchestration_metrics m).

(** The submissions among the events. *)
Definition submissions (es : list Event) : Z :=
  Z.of_nat
    (List.length
       (filter (fun e => match e with Submit _ => true | _ => false end) es)).

(** ** Further concrete inputs *)

Module Examples.

(** The one task submitted and assigned by the first pass of the loop, at
    the moment the event loop has taken the created execution from the
    ready list to start it. *)
Definition urgent_assigned : AgentOrchestrationMatrix :=
  with_ready []
    (run_ready (Scenario.at_ms 0)
       (Scenario.submit Scenario.urgent Scenario.one_voice_agent)).


End Examples.

(** ** The consciousness engine: personality, relationships, confidence

    The parts of [consciousness_engine.py] that compute on in-memory
    state: [AdaptivePersonality], [SocialContextGraph] and
    [AIConsciousness._calculate_confidence].  An interaction is the
    dictionary the caller passes, its values strings or numbers. *)

Module Consciousness.

Record PersonalityTrait := {
  trait_name : string;
  strength : Q;
  adaptability : Q;
  last_updated : datetime
}.

(** An entry of [interaction_history]. *)
Record HistoryEntry := {
  history_timestamp : datetime;
  history_feedback : PyAtom;
  history_type : PyAtom
}.

Record AdaptivePersonality := {
  personality_user_id : string;
  traits : Dict.t PersonalityTrait;
  interaction_history : list HistoryEntry
}.

(** [AdaptivePersonality._initialize_base_traits] *)
Definition _initialize_base_traits (now : datetime)
    : Dict.t PersonalityTrait :=
  [ ("helpfulness", Build_PersonalityTrait "helpfulness" 0.8 0.3 now);
    ("curiosity", Build_PersonalityTrait "curiosity" 0.7 0.4 now);
    ("empathy", Build_PersonalityTrait "empathy" 0.6 0.5 now);
    ("analytical", Build_PersonalityTrait "analytical" 0.7 0.2 now);
    ("creativity", Build_PersonalityTrait "creativity" 0.5 0.6 now);
    ("humor", Build_PersonalityTrait "humor" 0.4 0.7 now);
    ("patience", Build_PersonalityTrait "patience" 0.6 0.4 now);
    ("assertiveness", Build_PersonalityTrait "assertiveness" 0.5 0.3 now) ].

(** [AdaptivePersonality.__init__] *)
Definition AdaptivePersonality_init (now : datetime) (user : string)
    : AdaptivePersonality :=
  {| personality_user_id := user;
     traits := _initialize_base_traits now;
     interaction_history := [] |}.

(** [min(1.0, x)] *)
Definition min_one (x : Q) : Q := if Qle_bool 1 x then 1%Q else x.

(** [AdaptivePersonality._strengthen_trait]: the trait object is updated in
    place; an unknown name changes nothing. *)
Definition _strengthen_trait (now : datetime) (name : string) (amount : Q)
    (p : AdaptivePersonality) : AdaptivePersonality :=
  match Dict.get (traits p) name with
  | Some trait =>
      let max_change := (adaptability trait * amount)%Q in
      let new_strength := min_one (strength trait + max_change)%Q in
      {| personality_user_id := personality_user_id p;
         traits :=
           Dict.set (traits p) name
             {| trait_name := trait_name trait;
                strength := new_strength;
                adaptability := adaptability trait;
                last_updated := now |};
         interaction_history := interaction_history p |}
  | None => p
  end.

(** [d.get(key, default)] on an interaction. *)
Definition get_default (d : Dict.t PyAtom) (key : string) (default : PyAtom)
    : PyAtom :=
  match Dict.get d key with Some v => v | None => default end.

(** [x == 'literal'] for a value of an interaction. *)
Definition is_str (x : PyAtom) (literal : string) : bool :=
  match x with PyStr s => String.eqb s literal | _ => false end.

(** [AdaptivePersonality.adapt_to_interaction] *)
Definition adapt_to_interaction (now : datetime)
    (interaction_data : Dict.t PyAtom) (p : AdaptivePersonality)
    : AdaptivePersonality :=
  let user_feedback :=
    get_default interaction_data "feedback" (PyStr "neutral") in
  let interaction_type :=
    get_default interaction_data "type" (PyStr "general") in
  let p1 :=
    if is_str user_feedback "positive" then
      if is_str interaction_type "creative"
      then _strengthen_trait now "creativity" 0.05 p
      else if is_str interaction_type "analytical"
      then _strengthen_trait now "analytical" 0.05 p
      else if is_str interaction_type "empathetic"
      then _strengthen_trait now "empathy" 0.05 p
      else p
    else p in
  {| personality_user_id := personality_user_id p1;
     traits := traits p1;
     interaction_history :=
       interaction_history p1
       ++ [ {| history_timestamp := now;
               history_feedback := user_feedback;
               history_type := interaction_type |} ] |}.

(** An entry of [SocialContextGraph.relationships]. *)
Record Relationship := {
  rel_strength : Q;
  interactions : Z;
  last_interaction : datetime;
  context_tags : list string
}.

(** [SocialContextGraph.update_relationship], on the [relationships]
    dictionary. *)
Definition update_relationship (now : datetime) (entity_id : string)
    (interaction_data : Dict.t PyAtom)
    (relationships : Dict.t Relationship) : Dict.t Relationship :=
  let relationships1 :=
    if negb (Dict.mem relationships entity_id)
    then Dict.set relationships entity_id
           {| rel_strength := 0.1; interactions := 0;
              last_interaction := now; context_tags := [] |}
    else relationships in
  match Dict.get relationships1 entity_id with
  | Some relationship =>
      let counted := interactions relationship + 1 in
      let new_strength :=
        if is_str (get_default interaction_data "sentiment" (PyStr "neutral"))
             "positive"
        then min_one (rel_strength relationship + 0.1)%Q
        else rel_strength relationship in
      Dict.set relationships1 entity_id
        {| rel_strength := new_strength; interactions := counted;
           last_interaction := now;
           context_tags := context_tags relationship |}
  | None => relationships1
  end.

Record Memory := {
  memory_id : string;
  memory_timestamp : datetime;
  content : string;
  emotional_context : string;
  importance_score : Q;
  memory_user_id : string;
  memory_type : string;
  associations : list string
}.

(** [sum(m.importance_score for m in memories)] *)
Definition sum_importance (memories : list Memory) : Q :=
  fold_left (fun acc m => (acc + importance_score m)%Q) memories 0%Q.

(** [AIConsciousness._calculate_confidence] *)
Definition _calculate_confidence (memories : list Memory) : Q :=
  match memories with
  | [] => 0.3%Q
  | _ =>
      let avg_importance :=
        (sum_importance memories
         / inject_Z (Z.of_nat (List.length memories)))%Q in
      min_one (avg_importance + 0.2)%Q
  end.

(** A series of interactions, each with the clock reading of its call. *)
Definition adapt_to_all
    (calls : list (datetime * Dict.t PyAtom)) (p : AdaptivePersonality)
    : AdaptivePersonality :=
  fold_left (fun p call => adapt_to_interaction (fst call) (snd call) p)
    calls p.

(** A series of relationship updates. *)
Definition update_all
    (calls : list (datetime * string * Dict.t PyAtom))
    (relationships : Dict.t Relationship) : Dict.t Relationship :=
  fold_left
    (fun r call =>
       update_relationship (fst (fst call)) (snd (fst call)) (snd call) r)
    calls relationships.

(** The traits of [p'] are those of [p], none weaker, none above 1.0, each
    as adaptable as before. *)
Definition grown (p p' : AdaptivePersonality) : Prop :=
  forall name,
    match Dict.get (traits p) name with
    | Some t =>
        exists t',
          Dict.get (traits p') name = Some t' /\
          (strength t <= strength t' <= 1)%Q /\
          adaptability t' = adaptability t /\
          trait_name t' = trait_name t
    | None => Dict.get (traits p') name = None
    end.

(** No trait is stronger than 1.0 and none has a negative adaptability. *)
Definition bounded (p : AdaptivePersonality) : Prop :=
  forall name t,
    Dict.get (traits p) name = Some t ->
    (0 <= adaptability t)%Q /\ (strength t <= 1)%Q.

(** Number of updates for an entity in a series. *)
Definition updates_of (entity_id : string)
    (calls : list (datetime * string * Dict.t PyAtom)) : Z :=
  Z.of_nat
    (List.length
       (filter (fun call => String.eqb (snd (fst call)) entity_id) calls)).

End Consciousness.

(** * Facts about the model *)

(** ** Dictionaries *)

Section DictFacts.
Context {V : Type}.
Implicit Types (d : Dict.t V) (k : string) (v : V).

Lemma dict_get_set_same d k v : Dict.get (Dict.set d k v) k = Some v.
Proof.
  induction d as [|[k' v'] d IH]; simpl.
  - now rewrite String.eqb_refl.
  - destruct (String.eqb k k') eqn:E; simpl; rewrite E; auto.
Qed.

Lemma dict_get_set_other d k k' v :
  k <> k' -> Dict.get (Dict.set d k v) k' = Dict.get d k'.
Proof.
  intros Hne. induction d as [|[k0 v0] d IH]; simpl.
  - destruct (String.eqb k' k) eqn:E; auto.
    apply String.eqb_eq in E. congruence.
  - destruct (String.eqb k k0) eqn:E; simpl.
    + apply String.eqb_eq in E. subst k0.
      destruct (String.eqb k' k) eqn:E'; auto.
      apply String.eqb_eq in E'. congruence.
    + now rewrite IH.
Qed.

Lemma dict_get_del_same d k : Dict.get (Dict.del d k) k = None.
Proof.
  induction d as [|[k' v'] d IH]; simpl; auto.
  destruct (String.eqb k k') eqn:E; simpl; auto. now rewrite E.
Qed.

Lemma dict_get_del_other d k k' :
  k <> k' -> Dict.get (Dict.del d k) k' = Dict.get d k'.
Proof.
  intros Hne. induction d as [|[k0 v0] d IH]; simpl; auto.
  destruct (String.eqb k k0) eqn:E; simpl.
  - apply String.eqb_eq in E. subst k0.
    destruct (String.eqb k' k) eqn:E'; auto.
    apply String.eqb_eq in E'. congruence.
  - now rewrite IH.
Qed.
End DictFacts.

(** ** Running averages *)





Lemma Qlt_bool_iff (a b : Q) : Qlt_bool a b = true <-> (a < b)%Q.
Proof.
  unfold Qlt_bool. rewrite negb_true_iff. split; intros H.
  - apply Qnot_le_lt. intros Hle. apply Qle_bool_iff in Hle. congruence.
  - destruct (Qle_bool b a) eqn:E; auto.
    apply Qle_bool_iff in E. exfalso. now apply (Qlt_not_le a b).
Qed.

Lemma Qlt_bool_false_iff (a b : Q) : Qlt_bool a b = false <-> (b <= a)%Q.
Proof.
  unfold Qlt_bool. rewrite negb_false_iff. apply Qle_bool_iff.
Qed.

(** ** The head of a list sorted in reverse *)

Section SortReverseHead.
Context {A : Type} (score : A -> Q).

Lemma sort_reverse_nil (l : list A) :
  sort_reverse score Qlt_bool l = [] -> l = [].
Proof.
  destruct l as [|x l]; auto. simpl.
  destruct (sort_reverse score Qlt_bool l) as [|y s]; simpl; [discriminate|].
  destruct (Qlt_bool (score x) (score y)); discriminate.
Qed.

(** The first element of the sorted list is the first element of the
    original list that has the greatest score. *)
Lemma sort_reverse_head (l : list A) (x : A) :
  hd_error (sort_reverse score Qlt_bool l) = Some x ->
  exists earlier later,
    l = (earlier ++ x :: later)%list /\
    (forall b, In b earlier -> (score b < score x)%Q) /\
    (forall b, In b later -> (score b <= score x)%Q).
Proof.
  revert x. induction l as [|a l IH]; intros x; simpl; [discriminate|].
  destruct (sort_reverse score Qlt_bool l) as [|y s] eqn:Hs.
  - apply sort_reverse_nil in Hs. subst l. simpl. intros [= <-].
    exists [], []. repeat split; intros b [].
  - destruct (IH y eq_refl) as (pre & post & Hl & Hpre & Hpost).
    simpl. destruct (Qlt_bool (score a) (score y)) eqn:E; simpl; intros [= <-].
    + apply Qlt_bool_iff in E.
      exists (a :: pre), post. subst l. split; [reflexivity|]. split; auto.
      intros b [<-|Hb]; auto.
    + apply Qlt_bool_false_iff in E.
      exists [], l. split; [reflexivity|]. split; [intros b []|].
      intros b Hb. subst l. apply in_app_or in Hb.
      destruct Hb as [Hb|[<-|Hb]].
      * apply Qlt_le_weak. eapply Qlt_le_trans; [apply Hpre, Hb|exact E].
      * exact E.
      * eapply Qle_trans; [apply Hpost, Hb|exact E].
Qed.
End SortReverseHead.

(** ** Selection *)

Lemma agent_scores_filter (registry : Dict.t Agent) (task : Task) :
  agent_scores registry task
  = map (fun entry => (entry, composite_score (snd entry) task))
      (filter (eligible task) registry).
Proof.
  unfold agent_scores, Dict.items, eligible.
  induction registry as [|e r IH]; simpl; auto.
  destruct (is_idle (snd e)); simpl; auto.
  destruct (Qlt_bool 0 (fitness (snd e) task)); simpl; now rewrite IH.
Qed.




(** ** Sorting is a rearrangement *)

Section SortReversePerm.
Context {A K : Type} (key : A -> K) (ltb : K -> K -> bool).

Lemma insert_reverse_perm (x : A) (l : list A) :
  Permutation (x :: l) (insert_reverse key ltb x l).
Proof.
  induction l as [|y l IH]; simpl; auto.
  destruct (ltb (key x) (key y)); auto.
  rewrite perm_swap. now constructor.
Qed.

Lemma sort_reverse_perm (l : list A) :
  Permutation l (sort_reverse key ltb l).
Proof.
  induction l as [|x l IH]; simpl; auto.
  rewrite <- insert_reverse_perm. now constructor.
Qed.
End SortReversePerm.

Lemma sort_task_queue_In (q : list Task) (t : Task) :
  In t (sort_task_queue q) <-> In t q.
Proof.
  split; apply Permutation_in;
    [symmetry|]; apply sort_reverse_perm.
Qed.

(** ** The dispatch pass *)

Lemma select_best_agent_ext (m m' : AgentOrchestrationMatrix) (task : Task) :
  agents m' = agents m ->
  _select_best_agent m' task = _select_best_agent m task.
Proof. intros H. unfold _select_best_agent. now rewrite H. Qed.

Lemma assignable_ext (m m' : AgentOrchestrationMatrix) (task : Task) :
  agents m' = agents m -> assignable m' task = assignable m task.
Proof.
  intros H. unfold assignable. now rewrite (select_best_agent_ext m m').
Qed.

Lemma launch_ext (m m' : AgentOrchestrationMatrix) (task : Task) :
  agents m' = agents m -> launch m' task = launch m task.
Proof.
  intros H. unfold launch. now rewrite (select_best_agent_ext m m').
Qed.

Lemma assign_task_spec (task : Task) (m : AgentOrchestrationMatrix) :
  exists m',
    _assign_task_to_agent task m = (Returns (assignable m task), m') /\
    same_rest m m' /\
    task_queue m' = task_queue m /\
    ready m' = (ready m ++ launch m task)%list /\
    active_tasks m'
    = if assignable m task then mark_active (active_tasks m) task
      else active_tasks m.
Proof.
  unfold _assign_task_to_agent, assignable, launch, same_rest.
  destruct (_select_best_agent m task) as [[ref best]|].
  - destruct (AgentState_eqb (state (self best)) IDLE);
      eexists; (split; [reflexivity|]); cbn; rewrite ?app_nil_r; auto 10.
  - eexists; (split; [reflexivity|]); cbn; rewrite ?app_nil_r; auto 10.
Qed.

Lemma assign_each_spec (tasks : list Task) :
  forall m : AgentOrchestrationMatrix,
  exists m',
    assign_each tasks m = (Returns (filter (assignable m) tasks), m') /\
    same_rest m m' /\
    task_queue m' = task_queue m /\
    ready m' = (ready m ++ flat_map (launch m) tasks)%list /\
    active_tasks m'
    = fold_left mark_active (filter (assignable m) tasks) (active_tasks m).
Proof.
  induction tasks as [|task rest IH]; intros m.
  - exists m. cbn. rewrite app_nil_r. unfold same_rest. auto 10.
  - destruct (assign_task_spec task m)
      as (m1 & H1 & (Hag & Hc & Hm & Hr & Hs) & Hq1 & Hr1 & Ha1).
    destruct (IH m1) as (m2 & H2 & (Hag2 & Hc2 & Hm2 & Hr2 & Hs2) & Hq2 & Hrd2 & Ha2).
    exists m2. cbn [assign_each]. unfold bind at 1. rewrite H1.
    unfold bind at 1. rewrite H2. unfold ret.
    rewrite (filter_ext _ _ (fun t => assignable_ext m m1 t Hag)) in *.
    rewrite (flat_map_ext _ _ (fun t => launch_ext m m1 t Hag)) in Hrd2.
    split; [|split; [|split; [|split]]].
    + cbn [filter]. now destruct (assignable m task).
    + unfold same_rest. repeat split; congruence.
    + congruence.
    + rewrite Hrd2, Hr1. cbn [flat_map]. now rewrite app_assoc.
    + rewrite Ha2, Ha1. cbn [filter].
      now destruct (assignable m task).
Qed.

Lemma list_remove_first (x : Task) (pre q : list Task) :
  (forall y, In y pre -> y <> x) ->
  list_remove x (pre ++ x :: q) = Some (pre ++ q)%list.
Proof.
  induction pre as [|y pre IH]; intros Hpre; simpl.
  - destruct (Task_eq_dec x x); congruence.
  - destruct (Task_eq_dec y x) as [->|_].
    + exfalso. apply (Hpre x); simpl; auto.
    + rewrite IH; auto. intros z Hz. apply Hpre. now right.
Qed.

Lemma remove_each_spec (p : Task -> bool) (q : list Task) :
  forall (pre : list Task) (m : AgentOrchestrationMatrix),
  (forall y, In y pre -> p y = false) ->
  task_queue m = (pre ++ q)%list ->
  exists m',
    remove_each (filter p q) m = (Returns tt, m') /\
    task_queue m' = (pre ++ filter (fun t => negb (p t)) q)%list /\
    same_rest m m' /\
    active_tasks m' = active_tasks m /\
    ready m' = ready m.
Proof.
  induction q as [|x q IH]; intros pre m Hpre Hq.
  - exists m. cbn. unfold same_rest. auto 10.
  - cbn [filter]. destruct (p x) eqn:Hx; cbn [negb].
    + cbn [remove_each]. unfold bind at 1, queue_remove.
      rewrite Hq, list_remove_first.
      * destruct (IH pre (with_task_queue (pre ++ q) m) Hpre eq_refl)
          as (m' & H1 & H2 & (A & B & C & D & E) & H4 & H5).
        exists m'. rewrite H1. unfold same_rest. cbn in *. auto 10.
      * intros y Hy ->. specialize (Hpre _ Hy). congruence.
    + destruct (IH (pre ++ [x])%list m) as (m' & H1 & H2 & H3).
      * intros y Hy. apply in_app_or in Hy. destruct Hy as [Hy|[<-|[]]]; auto.
      * now rewrite <- app_assoc.
      * exists m'. rewrite <- app_assoc in H2. auto.
Qed.

Lemma process_task_queue_spec (m : AgentOrchestrationMatrix) :
  exists m',
    _process_task_queue m = (Returns tt, m') /\
    task_queue m'
    = filter (fun t => negb (assignable m t)) (sort_task_queue (task_queue m)) /\
    ready m' = (ready m ++ flat_map (launch m) (sort_task_queue (task_queue m)))%list /\
    active_tasks m'
    = fold_left mark_active
        (filter (assignable m) (sort_task_queue (task_queue m)))
        (active_tasks m) /\
    same_rest m m'.
Proof.
  unfold _process_task_queue.
  destruct (task_queue m) as [|t0 q0] eqn:Hq.
  - exists m. cbn. rewrite app_nil_r. unfold same_rest. auto 10.
  - set (sorted := sort_task_queue (t0 :: q0)).
    set (m1 := with_task_queue sorted m).
    destruct (assign_each_spec sorted m1)
      as (m2 & H2 & (Hag & Hc & Hm & Hr & Hs) & Hq2 & Hrd2 & Ha2).
    assert (Hm1 : agents m1 = agents m) by reflexivity.
    rewrite (filter_ext _ _ (fun t => assignable_ext m m1 t Hm1)) in *.
    rewrite (flat_map_ext _ _ (fun t => launch_ext m m1 t Hm1)) in Hrd2.
    destruct (remove_each_spec (assignable m) sorted [] m2)
      as (m3 & H3 & Hq3 & (Hag3 & Hc3 & Hm3 & Hr3 & Hs3) & Ha3 & Hrd3).
    { intros y []. }
    { rewrite Hq2. reflexivity. }
    exists m3. unfold bind. cbn [task_queue m1 with_task_queue].
    fold sorted. fold m1. rewrite H2, H3.
    split; [reflexivity|]. split; [exact Hq3|].
    split; [rewrite Hrd3, Hrd2; reflexivity|].
    split; [rewrite Ha3, Ha2; reflexivity|].
    unfold same_rest.
    rewrite Hag3, Hc3, Hm3, Hr3, Hs3, Hag, Hc, Hm, Hr, Hs. auto.
Qed.

(** ** Status lookup *)

Lemma NoDup_ids_distinct (q : list Task) :
  NoDup (map id q) -> ids_distinct q.
Proof.
  induction q as [|t q IH]; intros Hnd x y Hx Hy Hid; [destruct Hx|].
  cbn in Hnd. inversion Hnd as [|? ? Hnotin Hnd']; subst.
  destruct Hx as [<-|Hx], Hy as [<-|Hy]; auto.
  - exfalso. apply Hnotin. rewrite Hid. now apply in_map.
  - exfalso. apply Hnotin. rewrite <- Hid. now apply in_map.
  - now apply IH.
Qed.

Lemma ids_distinct_incl (q q' : list Task) :
  (forall t, In t q' -> In t q) -> ids_distinct q -> ids_distinct q'.
Proof. intros Hincl Hd x y Hx Hy. apply Hd; auto. Qed.

(** The queue part of [get_task_status]: the loop finds the first task
    with the identifier, and [index] answers the position of that task. *)
Lemma queue_lookup_first (q : list Task) (task_id : string) :
  forall (i : nat) (task : Task),
  nth_error q i = Some task ->
  id task = task_id ->
  (forall j t', (j < i)%nat -> nth_error q j = Some t' -> id t' <> task_id) ->
  find (fun t => String.eqb (id t) task_id) q = Some task /\
  list_index task q = Some i.
Proof.
  induction q as [|y q IH]; intros i task Hnth Hid Hfirst.
  - destruct i; discriminate.
  - destruct i as [|i]; cbn in Hnth.
    + injection Hnth as ->. cbn. rewrite Hid, String.eqb_refl.
      destruct (Task_eq_dec task task); [auto|congruence].
    + assert (Hy : id y <> task_id) by (apply (Hfirst O y); [lia|reflexivity]).
      destruct (IH i task Hnth Hid) as [Hf Hi].
      { intros j t' Hj Hn. apply (Hfirst (S j) t'); [lia|exact Hn]. }
      cbn. apply String.eqb_neq in Hy. rewrite Hy, Hf, Hi.
      destruct (Task_eq_dec y task) as [->|_]; auto.
      apply String.eqb_neq in Hy. congruence.
Qed.

Lemma queue_lookup_none (q : list Task) (task_id : string) :
  (forall task, In task q -> id task <> task_id) ->
  find (fun t => String.eqb (id t) task_id) q = None.
Proof.
  intros H. induction q as [|y q IH]; cbn; auto.
  assert (Hy : id y <> task_id) by (apply H; now left).
  apply String.eqb_neq in Hy. rewrite Hy. apply IH.
  intros t Ht. apply H. now right.
Qed.

Lemma queue_lookup_distinct (q : list Task) (task : Task) :
  ids_distinct q -> In task q ->
  exists i,
    nth_error q i = Some task /\
    forall j t', (j < i)%nat -> nth_error q j = Some t' -> id t' <> id task.
Proof.
  induction q as [|y q IH]; intros Hd Hin; [destruct Hin|].
  destruct (Task_eq_dec y task) as [->|Hne].
  - exists O. split; [reflexivity|]. intros j t' Hj. lia.
  - destruct Hin as [Hin|Hin]; [congruence|].
    destruct IH as (i & Hnth & Hfirst); auto.
    { eapply ids_distinct_incl; [|exact Hd]. intros t Ht. now right. }
    exists (S i). split; [exact Hnth|].
    intros [|j] t' Hj Hn; cbn in Hn.
    + injection Hn as <-. intros Hid. apply Hne.
      apply Hd; simpl; auto.
    + apply (Hfirst j t'); [lia|exact Hn].
Qed.

Lemma status_of_queued
    (m : AgentOrchestrationMatrix) (task_id : string) (i : nat) (task : Task) :
  Dict.get (completed_tasks m) task_id = None ->
  Dict.get (active_tasks m) task_id = None ->
  nth_error (task_queue m) i = Some task ->
  id task = task_id ->
  (forall j t', (j < i)%nat -> nth_error (task_queue m) j = Some t' ->
                id t' <> task_id) ->
  get_task_status m task_id = Returns (StatusQueued i).
Proof.
  intros Hc Ha Hnth Hid Hfirst. unfold get_task_status. rewrite Hc, Ha.
  destruct (queue_lookup_first _ _ _ _ Hnth Hid Hfirst) as [-> ->].
  reflexivity.
Qed.


(** ** Marking tasks active *)

Lemma fold_mark_active_other (ts : list Task) (k : string) :
  forall d : Dict.t Task,
  (forall t, In t ts -> id t <> k) ->
  Dict.get (fold_left mark_active ts d) k = Dict.get d k.
Proof.
  induction ts as [|t ts IH]; intros d H; cbn; auto.
  rewrite IH by (intros t' Ht'; apply H; now right).
  unfold mark_active. apply dict_get_set_other. apply H. now left.
Qed.

Lemma fold_mark_active_In (ts : list Task) (task : Task) :
  forall d : Dict.t Task,
  ids_distinct ts -> In task ts ->
  Dict.get (fold_left mark_active ts d) (id task) = Some task.
Proof.
  induction ts as [|t ts IH]; intros d Hd Hin; [destruct Hin|].
  cbn. destruct (in_dec Task_eq_dec task ts) as [Hin'|Hnot].
  - apply IH; auto.
    eapply ids_distinct_incl; [|exact Hd]. intros x Hx. now right.
  - destruct Hin as [->|Hin]; [|contradiction].
    rewrite fold_mark_active_other.
    + apply dict_get_set_same.
    + intros t' Ht' Hid. apply Hnot.
      replace task with t'; auto. apply Hd; simpl; auto.
Qed.

Lemma launch_In (m : AgentOrchestrationMatrix) (ref : string) (task t : Task) :
  In (ExecuteTaskWithAgent ref task) (launch m t) ->
  t = task /\ assignable m t = true.
Proof.
  unfold launch, assignable.
  destruct (_select_best_agent m t) as [[r best]|]; [|intros []].
  destruct (AgentState_eqb (state (self best)) IDLE); [|intros []].
  intros [[= _ ->]|[]]. auto.
Qed.

Lemma assignable_launch (m : AgentOrchestrationMatrix) (t : Task) :
  assignable m t = true ->
  exists ref, launch m t = [ExecuteTaskWithAgent ref t].
Proof.
  unfold launch, assignable.
  destruct (_select_best_agent m t) as [[r best]|]; [|discriminate].
  intros ->. eauto.
Qed.

(** ** Task execution *)

(** The [finally] block leaves no entry for the task among the active
    ones. *)
Lemma discard_active_spec (task : Task) (m : AgentOrchestrationMatrix) :
  exists m',
    discard_active task m = (Returns tt, m') /\
    Dict.get (active_tasks m') (id task) = None /\
    agents m' = agents m /\
    completed_tasks m' = completed_tasks m /\
    orchestration_metrics m' = orchestration_metrics m /\
    is_running m' = is_running m /\
    suspended m' = suspended m /\
    ready m' = ready m /\
    task_queue m' = task_queue m.
Proof.
  unfold discard_active, modify, Dict.mem.
  destruct (Dict.get (active_tasks m) (id task)) eqn:E;
    eexists; (split; [reflexivity|]); cbn; repeat split; auto.
  apply dict_get_del_same.
Qed.

Lemma resume_after_raise
    (entered now : Clock) (ref : string) (task : Task)
    (m : AgentOrchestrationMatrix) (a : Agent) (e : exn) (s' : BaseAgent) :
  Dict.get (agents m) ref = Some a ->
  execute_task_resume (class a) entered now task (self a) = (Raises e, s') ->
  exists m',
    _execute_task_with_agent_resume entered now ref task m = (Returns tt, m') /\
    Dict.get (completed_tasks m') (id task)
    = Some (error_response now (agent_id (self a)) task e) /\
    metadata (error_response now (agent_id (self a)) task e)
    = [("orchestration_error", PyBool true)] /\
    failed_tasks (orchestration_metrics m')
    = failed_tasks (orchestration_metrics m) + 1 /\
    successful_tasks (orchestration_metrics m')
    = successful_tasks (orchestration_metrics m) /\
    Dict.get (active_tasks m') (id task) = None /\
    is_running m' = is_running m /\
    suspended m' = suspended m /\
    Dict.get (agents m') ref = Some (with_self s' a).
Proof.
  intros Hget Hexec.
  unfold _execute_task_with_agent_resume. rewrite Hget.
  unfold _execute_task_with_agent_tail, try_finally, try_except, bind,
    on_agent. rewrite Hexec.
  unfold on_exception, bind, store_response, modify.
  match goal with |- context [discard_active task ?x] =>
    destruct (discard_active_spec task x)
      as (m' & Hd & Hact & Hag & Hc & Hm & Hr & Hs & _) end.
  rewrite Hd. exists m'. split; [reflexivity|].
  rewrite Hc, Hm, Hr, Hs, Hag. cbn.
  repeat split; auto using dict_get_set_same.
Qed.

Lemma resume_after_return
    (entered now : Clock) (ref : string) (task : Task)
    (m : AgentOrchestrationMatrix) (a : Agent) (response : AgentResponse)
    (s' : BaseAgent) :
  Dict.get (agents m) ref = Some a ->
  execute_task_resume (class a) entered now task (self a)
  = (Returns response, s') ->
  exists m',
    _execute_task_with_agent_resume entered now ref task m = (Returns tt, m') /\
    Dict.get (completed_tasks m') (id task) = Some response /\
    orchestration_metrics m'
    = (if success response then add_successful else add_failed)
        (orchestration_metrics m) /\
    Dict.get (active_tasks m') (id task) = None /\
    is_running m' = is_running m /\
    suspended m' = suspended m /\
    Dict.get (agents m') ref = Some (with_self s' a).
Proof.
  intros Hget Hexec.
  unfold _execute_task_with_agent_resume. rewrite Hget.
  unfold _execute_task_with_agent_tail, try_finally, try_except, bind,
    on_agent. rewrite Hexec.
  unfold store_response, count_response, modify.
  match goal with |- context [discard_active task ?x] =>
    destruct (discard_active_spec task x)
      as (m' & Hd & Hact & Hag & Hc & Hm & Hr & Hs & _) end.
  rewrite Hd. exists m'. split; [reflexivity|].
  rewrite Hc, Hm, Hr, Hs, Hag. cbn.
  repeat split; auto using dict_get_set_same.
Qed.

Lemma resume_counts_once
    (entered now : Clock) (ref : string) (task : Task)
    (m : AgentOrchestrationMatrix) (a : Agent) :
  Dict.get (agents m) ref = Some a ->
  completions_counted (snd (_execute_task_with_agent_resume entered now ref task m))
  = completions_counted m + 1.
Proof.
  intros Hget.
  destruct (execute_task_resume (class a) entered now task (self a))
    as [[response|e] s'] eqn:Hexec.
  - destruct (resume_after_return _ _ _ _ _ _ _ _ Hget Hexec)
      as (m' & -> & _ & Hm & _).
    unfold completions_counted. cbn [snd]. rewrite Hm.
    destruct (success response); cbn; lia.
  - destruct (resume_after_raise _ _ _ _ _ _ _ _ Hget Hexec)
      as (m' & -> & _ & _ & Hf & Hs & _).
    unfold completions_counted. cbn [snd]. lia.
Qed.

(** ** The deadline sweep *)
Lemma expire_counters (current_time : datetime) (m : AgentOrchestrationMatrix)
    (item : string * Task) :
  successful_tasks (orchestration_metrics (expire current_time m item))
  = successful_tasks (orchestration_metrics m) /\
  failed_tasks (orchestration_metrics (expire current_time m item))
  = failed_tasks (orchestration_metrics m)
    + (if deadline_exceeded current_time (snd item) then 1 else 0).
Proof.
  destruct item as [task_id task]. unfold expire. cbn [snd].
  destruct (deadline_exceeded current_time task); cbn; lia.
Qed.

Lemma sweep_counters (current_time : datetime) (items : list (string * Task)) :
  forall m,
  let m' := fold_left (expire current_time) items m in
  successful_tasks (orchestration_metrics m')
  = successful_tasks (orchestration_metrics m) /\
  failed_tasks (orchestration_metrics m')
  = failed_tasks (orchestration_metrics m) + expired_count current_time items.
Proof.
  unfold expired_count.
  induction items as [|item items IH]; intros m; cbn zeta.
  - cbn. lia.
  - cbn [fold_left filter].
    destruct (IH (expire current_time m item)) as [A B]. cbn zeta in A, B.
    destruct (expire_counters current_time m item) as [C D].
    rewrite A, B, C, D.
    destruct (deadline_exceeded current_time (snd item)); cbn [List.length]; lia.
Qed.

Lemma expire_agents (current_time : datetime) (m : AgentOrchestrationMatrix)
    (item : string * Task) :
  agents (expire current_time m item) = agents m.
Proof.
  destruct item as [k t]. unfold expire.
  now destruct (deadline_exceeded current_time t).
Qed.

Lemma sweep_agents (current_time : datetime) (items : list (string * Task)) :
  forall m, agents (fold_left (expire current_time) items m) = agents m.
Proof.
  induction items as [|item items IH]; intros m; cbn; auto.
  now rewrite IH, expire_agents.
Qed.

Lemma expire_keeps_timeout (current_time : datetime)
    (m : AgentOrchestrationMatrix) (item : string * Task) (k : string) :
  Dict.get (completed_tasks m) k = Some (timeout_response current_time k) ->
  Dict.get (completed_tasks (expire current_time m item)) k
  = Some (timeout_response current_time k).
Proof.
  intros H. destruct item as [k' t]. unfold expire.
  destruct (deadline_exceeded current_time t); auto. cbn.
  destruct (string_dec k' k) as [->|Hne].
  - apply dict_get_set_same.
  - now rewrite dict_get_set_other.
Qed.

Lemma sweep_records_timeout (current_time : datetime)
    (items : list (string * Task)) (k : string) :
  forall m,
  Dict.get (completed_tasks m) k = Some (timeout_response current_time k) \/
  (exists task, In (k, task) items /\
                deadline_exceeded current_time task = true) ->
  Dict.get (completed_tasks (fold_left (expire current_time) items m)) k
  = Some (timeout_response current_time k).
Proof.
  induction items as [|item items IH]; intros m H; cbn.
  - destruct H as [H|(task & [] & _)]. exact H.
  - apply IH. destruct H as [H|(task & [->|Hin] & Hexp)].
    + left. now apply expire_keeps_timeout.
    + left. unfold expire. rewrite Hexp. cbn. apply dict_get_set_same.
    + right. eauto.
Qed.

Lemma expired_count_pos (current_time : datetime)
    (items : list (string * Task)) (k : string) (task : Task) :
  In (k, task) items -> deadline_exceeded current_time task = true ->
  1 <= expired_count current_time items.
Proof.
  intros Hin Hexp. unfold expired_count.
  assert (H : In (k, task)
            (filter (fun item => deadline_exceeded current_time (snd item)) items))
    by (apply filter_In; auto).
  destruct (filter _ items); [destruct H|cbn [List.length]; lia].
Qed.

(** ** The order of the sorted queue *)

Lemma pair_ltb_false (x y : Z * Z) :
  pair_ltb x y = false <->
  fst y < fst x \/ (fst y = fst x /\ snd y <= snd x).
Proof.
  unfold pair_ltb.
  rewrite orb_false_iff, andb_false_iff, !Z.ltb_ge, Z.eqb_neq. lia.
Qed.

Lemma pair_ltb_true (x y : Z * Z) :
  pair_ltb x y = true <->
  fst x < fst y \/ (fst x = fst y /\ snd x < snd y).
Proof.
  unfold pair_ltb.
  rewrite orb_true_iff, andb_true_iff, !Z.ltb_lt, Z.eqb_eq. lia.
Qed.

Lemma precedes_iff (a b : Task) :
  precedes a b <->
  priority_value (priority b) < priority_value (priority a) \/
  (priority_value (priority b) = priority_value (priority a) /\
   snd (task_sort_key b) <= snd (task_sort_key a)).
Proof. unfold precedes. apply pair_ltb_false. Qed.

Lemma precedes_trans (a b c : Task) :
  precedes a b -> precedes b c -> precedes a c.
Proof. unfold precedes. rewrite !pair_ltb_false. lia. Qed.

Lemma precedes_total (a b : Task) :
  pair_ltb (task_sort_key a) (task_sort_key b) = true -> precedes b a.
Proof. unfold precedes. rewrite pair_ltb_false, pair_ltb_true. lia. Qed.

Lemma insert_reverse_sorted (x : Task) (l : list Task) :
  StronglySorted precedes l ->
  StronglySorted precedes (insert_reverse task_sort_key pair_ltb x l).
Proof.
  induction 1 as [|y l Hs IH Hall]; cbn.
  - repeat constructor.
  - destruct (pair_ltb (task_sort_key x) (task_sort_key y)) eqn:E.
    + constructor; auto.
      apply Forall_forall. intros z Hz.
      apply (Permutation_in z
               (Permutation_sym
                  (insert_reverse_perm task_sort_key pair_ltb x l))) in Hz.
      destruct Hz as [<-|Hz].
      * now apply precedes_total.
      * rewrite Forall_forall in Hall. now apply Hall.
    + constructor; [now constructor|].
      constructor; [exact E|].
      eapply Forall_impl; [|exact Hall].
      intros z Hz. eapply precedes_trans; [exact E|exact Hz].
Qed.

(** What the sort of the dispatch pass establishes: every task stands
    before the tasks of lower priority and, among those of its own
    priority, before the tasks with an earlier deadline; a task without
    deadline counts as due at [datetime.max]. *)
Lemma sort_task_queue_sorted (q : list Task) :
  StronglySorted precedes (sort_task_queue q).
Proof.
  unfold sort_task_queue. induction q as [|x q IH]; cbn.
  - constructor.
  - now apply insert_reverse_sorted.
Qed.

(** * The claims *)

Import Scenario.

(** ** C1 *)

(** C1 (at most one assignment per worker, the worker being marked at
    dispatch).  The dispatch pass does not mark the agent it assigns a task
    to: the state of the agent changes only when the created coroutine
    starts.  With two tasks queued for the one registered [VoiceAgent], the
    first pass of the loop assigns both to it and empties the queue, the
    agent is still idle after the pass, and once the event loop has started
    the created coroutines the agent is executing the two tasks at once. *)
Theorem one_pass_assigns_two_tasks_to_one_agent :
  ready after_first_pass
  = [OrchestrationLoop;
     ExecuteTaskWithAgent "voice_agent_001" first_task;
     ExecuteTaskWithAgent "voice_agent_001" second_task] /\
  task_queue after_first_pass = [] /\
  option_map (fun a => state (self a))
    (Dict.get (agents after_first_pass) "voice_agent_001") = Some IDLE /\
  executing "voice_agent_001" both_started = [first_task; second_task].
Proof. vm_compute. repeat split. Qed.

(** ** C2 *)

(** C2 (queue ordered by priority descending, then deadline ascending,
    tasks without deadline last).  [reverse=True] reverses the whole key:
    three tasks of priority HIGH submitted in the order early (due at
    10 s), late (due at 20 s), open-ended (no deadline) leave the sort of
    the dispatch pass in the order open-ended, late, early. *)
Theorem equal_priority_sorted_latest_deadline_first :
  task_queue three_queued = [early; late; open_ended] /\
  _process_task_queue three_queued = (Returns tt, three_sorted) /\
  task_queue three_sorted = [open_ended; late; early].
Proof. vm_compute. repeat split. Qed.

(** ** C3 *)

(** C3 as stated fails: in the run where the deadline of the task passes
    at 500 ms and the agent finishes at 1000 ms, the sweep at 600 ms
    records the timeout response, and the response of the agent then takes
    its place in the completed map and in the reported status. *)
Lemma late_result_replaces_timeout_in_run :
  Dict.get (completed_tasks urgent_swept) "task-1"
  = Some (timeout_response 600000 "task-1") /\
  option_map resp_agent_id
    (Dict.get (completed_tasks urgent_finished) "task-1")
  = Some "voice_agent_001" /\
  option_map success (Dict.get (completed_tasks urgent_finished) "task-1")
  = Some true /\
  Dict.get (completed_tasks urgent_finished) "task-1"
  <> Some (timeout_response 600000 "task-1") /\
  get_task_status urgent_swept "task-1"
  = Returns (StatusCompleted false None 0.0 "orchestration_matrix") /\
  (exists out t,
     get_task_status urgent_finished "task-1"
     = Returns (StatusCompleted true out t "voice_agent_001")).
Proof.
  vm_compute. repeat split; try discriminate.
  eexists. eexists. reflexivity.
Qed.

(** C3, amended (last writer wins).  For a task in flight whose deadline
    has passed at the sweep, the sweep records the synthetic timeout
    response under the task identifier, and when the [execute_task] of the
    agent later returns a response, that response replaces the timeout
    response in the completed map. *)
Theorem late_result_overwrites_timeout
    (sweep entered now : Clock) (ref : string) (task : Task)
    (m : AgentOrchestrationMatrix) (a : Agent) (response : AgentResponse)
    (s' : BaseAgent) :
  In (id task, task) (active_tasks m) ->
  deadline_exceeded (datetime_now sweep) task = true ->
  Dict.get (agents m) ref = Some a ->
  execute_task_resume (class a) entered now task (self a)
  = (Returns response, s') ->
  let m1 := _monitor_active_tasks sweep m in
  let m2 := snd (_execute_task_with_agent_resume entered now ref task m1) in
  Dict.get (completed_tasks m1) (id task)
  = Some (timeout_response (datetime_now sweep) (id task)) /\
  Dict.get (completed_tasks m2) (id task) = Some response.
Proof.
  intros Hin Hexp Hget Hexec. cbn zeta. split.
  - apply sweep_records_timeout. right. exists task. auto.
  - assert (Hget1 : Dict.get (agents (_monitor_active_tasks sweep m)) ref = Some a).
    { unfold _monitor_active_tasks. now rewrite sweep_agents. }
    destruct (resume_after_return _ _ _ _ _ _ _ _ Hget1 Hexec) as (m' & -> & H & _).
    exact H.
Qed.

Lemma late_result_overwrites_timeout_witness :
  exists a response s',
    In (id urgent, urgent) (active_tasks urgent_started) /\
    deadline_exceeded (datetime_now (at_ms 600)) urgent = true /\
    Dict.get (agents urgent_started) "voice_agent_001" = Some a /\
    execute_task_resume (class a) (at_ms 0) (at_ms 1000) urgent (self a)
    = (Returns response, s') /\
    Dict.get
      (completed_tasks
         (snd (_execute_task_with_agent_resume (at_ms 0) (at_ms 1000)
                 "voice_agent_001" urgent
                 (_monitor_active_tasks (at_ms 600) urgent_started))))
      (id urgent)
    = Some response.
Proof.
  exists urgent_agent.
  let t := eval vm_compute in
    (execute_task_resume (class urgent_agent) (at_ms 0) (at_ms 1000) urgent
       (self urgent_agent)) in
  match t with (Returns ?r, ?s) => exists r, s end.
  refine ((fun H1 H2 H3 H4 =>
             conj H1 (conj H2 (conj H3 (conj H4
               (proj2 (late_result_overwrites_timeout
                         (at_ms 600) (at_ms 0) (at_ms 1000)
                         "voice_agent_001" urgent urgent_started
                         _ _ _ H1 H2 H3 H4)))))) _ _ _ _).
  - vm_compute. auto.
  - reflexivity.
  - reflexivity.
  - vm_compute. reflexivity.
Defined.

(** ** C4 *)



(** ** C5 *)



(** ** C6 *)


(** ** C7 *)

(** C7 as stated fails in its last part: the agent of the run below
    becomes active and raises from [execute_task]; the failure is recorded
    and the loop stays suspended in its sleep, but the agent is left
    active with the task as its current task. *)
Lemma raising_agent_left_active :
  fst (execute_task_resume (class raising_agent) (at_ms 0) (at_ms 1000)
         first_task (self raising_agent))
  = Raises (Exception "worker failure") /\
  Dict.get (completed_tasks raising_finished) "task-1"
  = Some (error_response (at_ms 1000) "raising_agent_001" first_task
            (Exception "worker failure")) /\
  suspended raising_finished = [LoopSleeping] /\
  option_map (fun a => state (self a))
    (Dict.get (agents raising_finished) "raising_agent_001") = Some ACTIVE /\
  option_map (fun a => state (self a))
    (Dict.get (agents raising_finished) "raising_agent_001") <> Some IDLE.
Proof. vm_compute. repeat split. discriminate. Qed.

(** C7, amended.  If the [execute_task] of an agent raises, no exception
    leaves [_execute_task_with_agent]: the response recorded for the task
    is the failure response tagged [orchestration_error], the failure
    counter goes up by one and the success counter stays, the task is no
    longer in flight, the loop is untouched ([is_running] and the suspended
    coroutines are as before), and the agent object is as [execute_task]
    left it: the dispatch boundary does not restore its state. *)
Theorem execute_task_exception_contained
    (entered now : Clock) (ref : string) (task : Task)
    (m : AgentOrchestrationMatrix) (a : Agent) (e : exn) (s' : BaseAgent) :
  Dict.get (agents m) ref = Some a ->
  execute_task_resume (class a) entered now task (self a) = (Raises e, s') ->
  exists m',
    _execute_task_with_agent_resume entered now ref task m = (Returns tt, m') /\
    Dict.get (completed_tasks m') (id task)
    = Some (error_response now (agent_id (self a)) task e) /\
    metadata (error_response now (agent_id (self a)) task e)
    = [("orchestration_error", PyBool true)] /\
    failed_tasks (orchestration_metrics m')
    = failed_tasks (orchestration_metrics m) + 1 /\
    successful_tasks (orchestration_metrics m')
    = successful_tasks (orchestration_metrics m) /\
    Dict.get (active_tasks m') (id task) = None /\
    is_running m' = is_running m /\
    suspended m' = suspended m /\
    Dict.get (agents m') ref = Some (with_self s' a).
Proof. apply resume_after_raise. Qed.

Lemma execute_task_exception_contained_witness :
  Dict.get (agents raising_started) "raising_agent_001" = Some raising_agent /\
  execute_task_resume (class raising_agent) (at_ms 0) (at_ms 1000) first_task
    (self raising_agent)
  = (Raises (Exception "worker failure"), self raising_agent) /\
  exists m',
    _execute_task_with_agent_resume (at_ms 0) (at_ms 1000)
      "raising_agent_001" first_task raising_started
    = (Returns tt, m') /\
    Dict.get (agents m') "raising_agent_001"
    = Some (with_self (self raising_agent) raising_agent).
Proof.
  refine ((fun H1 H2 =>
             conj H1 (conj H2
               match execute_task_exception_contained
                       (at_ms 0) (at_ms 1000) "raising_agent_001" first_task
                       raising_started raising_agent
                       (Exception "worker failure") (self raising_agent)
                       H1 H2 with
               | ex_intro _ m' (conj A (conj _ (conj _ (conj _ (conj _
                   (conj _ (conj _ (conj _ B)))))))) =>
                   ex_intro _ m' (conj A B)
               end)) _ _).
  - reflexivity.
  - reflexivity.
Defined.

(** ** C8 *)

(** C8 (removal from the queue only with assignment).  When the queued
    identifiers are distinct and neither in flight nor completed, a
    dispatch pass returns normally and: every task left in the queue was in
    it before; a task of the queue is gone from it exactly when the pass
    created an execution for it and recorded it as in flight; and a task
    for which the selector answers none is still in the queue and
    [get_task_status] reports it as queued, at its position in the queue
    after the pass. *)
Theorem process_task_queue_removes_assigned (m : AgentOrchestrationMatrix) :
  queued_ids_fresh m ->
  exists m' launched,
    _process_task_queue m = (Returns tt, m') /\
    ready m' = (ready m ++ launched)%list /\
    (forall task, In task (task_queue m') -> In task (task_queue m)) /\
    (forall task, In task (task_queue m) ->
       (~ In task (task_queue m') <->
        exists ref,
          In (ExecuteTaskWithAgent ref task) launched /\
          Dict.get (active_tasks m') (id task) = Some task)) /\
    (forall task, In task (task_queue m) ->
       _select_best_agent m task = None ->
       exists position,
         nth_error (task_queue m') position = Some task /\
         get_task_status m' (id task) = Returns (StatusQueued position)).
Proof.
  intros [Hnd Hfresh].
  destruct (process_task_queue_spec m)
    as (m' & Hrun & Hq & Hrd & Hact & (Hag & Hc & _)).
  set (sorted := sort_task_queue (task_queue m)) in *.
  assert (Hsorted_d : ids_distinct sorted).
  { eapply ids_distinct_incl; [|apply NoDup_ids_distinct, Hnd].
    intros t. apply sort_task_queue_In. }
  assert (Hassigned_d : ids_distinct (filter (assignable m) sorted)).
  { eapply ids_distinct_incl; [|exact Hsorted_d].
    intros t Ht. now apply filter_In in Ht. }
  assert (Hincl : forall task, In task (task_queue m') -> In task (task_queue m)).
  { intros task. rewrite Hq. unfold sorted.
    rewrite filter_In, sort_task_queue_In. tauto. }
  exists m', (flat_map (launch m) sorted).
  split; [exact Hrun|]. split; [exact Hrd|]. split; [exact Hincl|]. split.
  - intros task Hin.
    assert (Hin_s : In task sorted) by now apply sort_task_queue_In.
    rewrite Hq, filter_In, negb_true_iff. split.
    + intros Hnot.
      assert (Ha : assignable m task = true).
      { destruct (assignable m task); auto; exfalso; auto. }
      destruct (assignable_launch m task Ha) as [ref Hl].
      exists ref. split.
      * apply in_flat_map. exists task. rewrite Hl. simpl. auto.
      * rewrite Hact. apply fold_mark_active_In; auto.
        apply filter_In. auto.
    + intros (ref & Hl & _) [_ Hfalse].
      apply in_flat_map in Hl. destruct Hl as (t & _ & Hl).
      apply launch_In in Hl. destruct Hl as [-> Ha]. congruence.
  - intros task Hin Hnone.
    assert (Hna : assignable m task = false)
      by (unfold assignable; now rewrite Hnone).
    assert (Hin' : In task (task_queue m')).
    { rewrite Hq. apply filter_In. rewrite Hna.
      split; [now apply sort_task_queue_In|reflexivity]. }
    destruct (queue_lookup_distinct (task_queue m') task) as (i & Hnth & Hfirst);
      auto.
    { eapply ids_distinct_incl; [exact Hincl|apply NoDup_ids_distinct, Hnd]. }
    exists i. split; [exact Hnth|].
    destruct (Hfresh task Hin) as [Hactive Hcompleted].
    apply (status_of_queued m' (id task) i task); auto.
    + now rewrite Hc.
    + rewrite Hact, fold_mark_active_other; auto.
      intros t Ht Hid. apply filter_In in Ht. destruct Ht as [Ht Ha].
      assert (t = task) by (apply Hsorted_d; auto; now apply sort_task_queue_In).
      congruence.
Qed.

Lemma process_task_queue_removes_assigned_witness :
  queued_ids_fresh mixed_queue /\
  exists m',
    _process_task_queue mixed_queue = (Returns tt, m') /\
    exists position,
      nth_error (task_queue m') position = Some unmatched /\
      get_task_status m' (id unmatched) = Returns (StatusQueued position).
Proof.
  refine ((fun H : queued_ids_fresh mixed_queue =>
             conj H
               match process_task_queue_removes_assigned mixed_queue H with
               | ex_intro _ m' (ex_intro _ _
                   (conj A (conj _ (conj _ (conj _ B))))) =>
                   ex_intro _ m' (conj A (B unmatched _ _))
               end) _).
  - vm_compute. auto.
  - reflexivity.
  - split.
    + repeat constructor; vm_compute; intuition discriminate.
    + intros task [<-|[<-|[]]]; split; reflexivity.
Defined.

(** ** C9 *)

(** C9 as stated fails: in the run where the deadline of the one submitted
    task passes while the agent is executing it, the sweep counts the task
    as failed and the response of the agent counts it again as successful:
    two increments for one task. *)
Lemma timed_out_task_counted_twice_in_run :
  total_tasks (orchestration_metrics urgent_finished) = 1 /\
  completions_counted urgent_started = 0 /\
  completions_counted urgent_swept = 1 /\
  successful_tasks (orchestration_metrics urgent_finished) = 1 /\
  failed_tasks (orchestration_metrics urgent_finished) = 1 /\
  completions_counted urgent_finished = 2.
Proof. vm_compute. repeat split. Qed.

(** C9, amended.  The counters are updated once for every recorded
    response, not once for every task.  For a task in flight whose
    deadline has passed at the sweep: the sweep leaves [successful_tasks]
    and adds to [failed_tasks] the number of expired tasks, this task among
    them, and records the timeout response; when the agent then finishes,
    with a response or with an exception, exactly one of the two counters
    goes up by one once more. *)
Theorem timed_out_task_counted_twice
    (sweep entered now : Clock) (ref : string) (task : Task)
    (m : AgentOrchestrationMatrix) (a : Agent) :
  In (id task, task) (active_tasks m) ->
  deadline_exceeded (datetime_now sweep) task = true ->
  Dict.get (agents m) ref = Some a ->
  let m1 := _monitor_active_tasks sweep m in
  let m2 := snd (_execute_task_with_agent_resume entered now ref task m1) in
  let expired := expired_count (datetime_now sweep) (active_tasks m) in
  1 <= expired /\
  successful_tasks (orchestration_metrics m1)
  = successful_tasks (orchestration_metrics m) /\
  failed_tasks (orchestration_metrics m1)
  = failed_tasks (orchestration_metrics m) + expired /\
  Dict.get (completed_tasks m1) (id task)
  = Some (timeout_response (datetime_now sweep) (id task)) /\
  completions_counted m2 = completions_counted m1 + 1.
Proof.
  intros Hin Hexp Hget. cbn zeta.
  destruct (sweep_counters (datetime_now sweep) (active_tasks m) m) as [A B].
  cbn zeta in A, B.
  split; [eapply expired_count_pos; eauto|].
  split; [exact A|]. split; [exact B|]. split.
  - apply sweep_records_timeout. right. exists task. auto.
  - apply (resume_counts_once _ _ _ _ _ a).
    unfold _monitor_active_tasks. now rewrite sweep_agents.
Qed.

Lemma timed_out_task_counted_twice_witness :
  In (id urgent, urgent) (active_tasks urgent_started) /\
  deadline_exceeded (datetime_now (at_ms 600)) urgent = true /\
  Dict.get (agents urgent_started) "voice_agent_001" = Some urgent_agent /\
  completions_counted
    (snd (_execute_task_with_agent_resume (at_ms 0) (at_ms 1000)
            "voice_agent_001" urgent
            (_monitor_active_tasks (at_ms 600) urgent_started)))
  = completions_counted (_monitor_active_tasks (at_ms 600) urgent_started)
    + 1.
Proof.
  refine ((fun H1 H2 H3 =>
             conj H1 (conj H2 (conj H3
               match timed_out_task_counted_twice
                       (at_ms 600) (at_ms 0) (at_ms 1000) "voice_agent_001"
                       urgent urgent_started urgent_agent H1 H2 H3 with
               | conj _ (conj _ (conj _ (conj _ A))) => A
               end))) _ _ _).
  - vm_compute. auto.
  - reflexivity.
  - reflexivity.
Defined.

(** ** C10 *)

(** C10 (precedence of the status lookup).  [get_task_status] answers
    completed, with the fields of the recorded response, whenever the
    identifier is in the completed map, whatever the in-flight map and the
    queue hold; otherwise active when the identifier is in the in-flight
    map; otherwise queued with the position, in the queue as it is now, of
    the first task with that identifier; otherwise not found. *)
Theorem get_task_status_precedence
    (m : AgentOrchestrationMatrix) (task_id : string) :
  (forall response,
     Dict.get (completed_tasks m) task_id = Some response ->
     get_task_status m task_id
     = Returns (StatusCompleted (success response) (output response)
                  (execution_time response) (resp_agent_id response))) /\
  (forall task,
     Dict.get (completed_tasks m) task_id = None ->
     Dict.get (active_tasks m) task_id = Some task ->
     get_task_status m task_id = Returns (StatusActive task)) /\
  (forall i task,
     Dict.get (completed_tasks m) task_id = None ->
     Dict.get (active_tasks m) task_id = None ->
     nth_error (task_queue m) i = Some task ->
     id task = task_id ->
     (forall j t', (j < i)%nat -> nth_error (task_queue m) j = Some t' ->
                   id t' <> task_id) ->
     get_task_status m task_id = Returns (StatusQueued i)) /\
  (Dict.get (completed_tasks m) task_id = None ->
   Dict.get (active_tasks m) task_id = None ->
   (forall task, In task (task_queue m) -> id task <> task_id) ->
   get_task_status m task_id = Returns StatusNotFound).
Proof.
  repeat split.
  - intros response H. unfold get_task_status. now rewrite H.
  - intros task Hc Ha. unfold get_task_status. now rewrite Hc, Ha.
  - intros i task. apply status_of_queued.
  - intros Hc Ha Hnone. unfold get_task_status.
    now rewrite Hc, Ha, queue_lookup_none.
Qed.

(** The task submitted first stands at position 2 after the sort of a
    dispatch pass, and that is the position reported. *)
Lemma get_task_status_precedence_witness :
  Dict.get (completed_tasks three_sorted) "early" = None /\
  Dict.get (active_tasks three_sorted) "early" = None /\
  nth_error (task_queue three_queued) 0 = Some early /\
  nth_error (task_queue three_sorted) 2 = Some early /\
  get_task_status three_sorted "early" = Returns (StatusQueued 2).
Proof.
  refine ((fun H1 H2 H3 H4 H5 =>
             conj H1 (conj H2 (conj H3 (conj H4
               (proj1 (proj2 (proj2
                  (get_task_status_precedence three_sorted "early")))
                  2%nat early H1 H2 H4 H5 _))))) _ _ _ _ _).
  - intros [|[|j]] t' Hj Hnth.
    + injection Hnth as <-. discriminate.
    + injection Hnth as <-. discriminate.
    + exfalso. lia.
  - reflexivity.
  - reflexivity.
  - reflexivity.
  - reflexivity.
  - reflexivity.
Defined.

(** * Further properties of the code *)

(** ** More on dictionaries *)

Section DictMoreFacts.
Context {V : Type}.
Implicit Types (d : Dict.t V) (k : string) (v : V).

Lemma dict_mem_get d k :
  Dict.mem d k = true <-> exists v, Dict.get d k = Some v.
Proof.
  unfold Dict.mem. destruct (Dict.get d k); split; eauto.
  - discriminate.
  - intros [v [=]].
Qed.

Lemma dict_mem_false d k : Dict.mem d k = false <-> Dict.get d k = None.
Proof. unfold Dict.mem. destruct (Dict.get d k); split; congruence. Qed.

Lemma dict_mem_set d k k' v :
  Dict.mem (Dict.set d k v) k' = String.eqb k k' || Dict.mem d k'.
Proof.
  unfold Dict.mem. destruct (String.eqb k k') eqn:E.
  - apply String.eqb_eq in E. subst k'. now rewrite dict_get_set_same.
  - apply String.eqb_neq in E. now rewrite dict_get_set_other.
Qed.

Lemma dict_mem_del d k k' :
  Dict.mem (Dict.del d k) k' = negb (String.eqb k k') && Dict.mem d k'.
Proof.
  unfold Dict.mem. destruct (String.eqb k k') eqn:E.
  - apply String.eqb_eq in E. subst k'. now rewrite dict_get_del_same.
  - apply String.eqb_neq in E. now rewrite dict_get_del_other.
Qed.

Lemma dict_In_mem d k v : In (k, v) d -> Dict.mem d k = true.
Proof.
  unfold Dict.mem. induction d as [|[k0 v0] d IH]; intros Hin; [destruct Hin|].
  cbn. destruct (String.eqb k k0) eqn:E; auto.
  destruct Hin as [[= -> ->]|Hin]; [now rewrite String.eqb_refl in E|auto].
Qed.

Lemma dict_get_In d k v : Dict.get d k = Some v -> In (k, v) d.
Proof.
  induction d as [|[k0 v0] d IH]; cbn; [discriminate|].
  destruct (String.eqb k k0) eqn:E.
  - apply String.eqb_eq in E. intros [= ->]. subst. now left.
  - intros H. right. auto.
Qed.

(** With distinct keys an entry is what the lookup of its key finds. *)
Lemma dict_In_get d k v :
  NoDup (map fst d) -> In (k, v) d -> Dict.get d k = Some v.
Proof.
  induction d as [|[k0 v0] d IH]; intros Hnd Hin; [destruct Hin|].
  cbn in Hnd. inversion Hnd as [|? ? Hnotin Hnd']; subst. cbn.
  destruct Hin as [[= -> ->]|Hin]; [now rewrite String.eqb_refl|].
  destruct (String.eqb k k0) eqn:E; auto.
  apply String.eqb_eq in E. subst k0. exfalso. apply Hnotin.
  change k with (fst (k, v)). now apply in_map.
Qed.

(** An assignment keeps the keys and their order; a new key goes last. *)
Lemma dict_keys_set d k v :
  map fst (Dict.set d k v)
  = if Dict.mem d k then map fst d else (map fst d ++ [k])%list.
Proof.
  unfold Dict.mem. induction d as [|[k0 v0] d IH]; cbn; auto.
  destruct (String.eqb k k0) eqn:E; cbn; auto.
  rewrite IH. now destruct (Dict.get d k).
Qed.

Lemma dict_set_length_new d k v :
  Dict.get d k = None -> List.length (Dict.set d k v) = S (List.length d).
Proof.
  induction d as [|[k0 v0] d IH]; cbn; auto.
  destruct (String.eqb k k0); [discriminate|]. cbn. auto.
Qed.

Lemma dict_In_set d k v k' v' :
  In (k', v') (Dict.set d k v) -> (k' = k /\ v' = v) \/ In (k', v') d.
Proof.
  induction d as [|[k0 v0] d IH]; cbn.
  - intros [[= -> ->]|[]]. auto.
  - destruct (String.eqb k k0) eqn:E; cbn.
    + apply String.eqb_eq in E. subst k0.
      intros [[= -> ->]|H]; auto.
    + intros [H|H]; auto. destruct (IH H); auto.
Qed.

Lemma dict_del_filter d k :
  Dict.del d k = filter (fun e => negb (String.eqb k (fst e))) d.
Proof.
  induction d as [|[k0 v0] d IH]; cbn; auto.
  destruct (String.eqb k k0); cbn; now rewrite IH.
Qed.

Lemma dict_keys_set_NoDup d k v :
  NoDup (map fst d) -> NoDup (map fst (Dict.set d k v)).
Proof.
  intros Hnd. rewrite dict_keys_set.
  destruct (Dict.mem d k) eqn:E; auto.
  apply NoDup_app; auto.
  - repeat constructor. intros [].
  - intros x Hx [<-|[]]. apply dict_mem_false in E.
    apply in_map_iff in Hx. destruct Hx as ([k0 v0] & Hk & Hin).
    cbn in Hk. subst k0. apply dict_In_mem in Hin.
    apply dict_mem_false in E. congruence.
Qed.
End DictMoreFacts.

(** ** Registration and submission *)

(** X1 ([register_agent], lookup after registration).  After an agent is
    registered, its identifier leads to that agent object and to a
    utilization of 0.0, also when the identifier was registered before,
    whose utilization is thereby reset; the entries of every other
    identifier, the queue, the in-flight and completed maps and the
    counters are as before. *)
Theorem register_agent_lookup (agent : Agent) (m : AgentOrchestrationMatrix) :
  let m' := register_agent agent m in
  let aid := agent_id (self agent) in
  Dict.get (agents m') aid = Some agent /\
  Dict.get (agent_utilization (orchestration_metrics m')) aid = Some 0.0%Q /\
  (forall k, k <> aid ->
     Dict.get (agents m') k = Dict.get (agents m) k /\
     Dict.get (agent_utilization (orchestration_metrics m')) k
     = Dict.get (agent_utilization (orchestration_metrics m)) k) /\
  task_queue m' = task_queue m /\
  active_tasks m' = active_tasks m /\
  completed_tasks m' = completed_tasks m /\
  total_tasks (orchestration_metrics m')
  = total_tasks (orchestration_metrics m) /\
  completions_counted m' = completions_counted m.
Proof.
  cbn zeta. unfold register_agent, completions_counted. cbn.
  rewrite !dict_get_set_same.
  repeat split; auto; apply dict_get_set_other; auto.
Qed.

(** X2 ([register_agent], registration order).  The registry lists the
    identifiers in the order of their first registration: registering
    under an identifier that is already registered leaves the list of
    identifiers as it is, and a new identifier goes to the end. *)
Theorem register_agent_keeps_order
    (agent : Agent) (m : AgentOrchestrationMatrix) :
  map fst (agents (register_agent agent m))
  = if Dict.mem (agents m) (agent_id (self agent))
    then map fst (agents m)
    else (map fst (agents m) ++ [agent_id (self agent)])%list.
Proof. unfold register_agent. cbn. apply dict_keys_set. Qed.

(** Submitting a series of tasks, one call after the other. *)
Lemma submit_all_spec (tasks : list Task) :
  forall m : AgentOrchestrationMatrix,
  let m' := run_events m (map Submit tasks) in
  task_queue m' = (task_queue m ++ tasks)%list /\
  total_tasks (orchestration_metrics m')
  = total_tasks (orchestration_metrics m) + Z.of_nat (List.length tasks) /\
  is_running m' = is_running m /\
  ready m'
  = (ready m ++ if is_running m then []
                else repeat OrchestrationLoop (List.length tasks))%list /\
  agents m' = agents m /\
  active_tasks m' = active_tasks m /\
  completed_tasks m' = completed_tasks m /\
  suspended m' = suspended m.
Proof.
  induction tasks as [|task tasks IH]; intros m; cbn zeta.
  - cbn. rewrite !app_nil_r, Z.add_0_r.
    destruct (is_running m); rewrite ?app_nil_r; auto 10.
  - cbn [map run_events fold_left apply_event].
    specialize (IH (snd (submit_task task m))). cbn zeta in IH.
    unfold run_events in IH.
    destruct IH as (A & B & C & D & E & F & G & H).
    rewrite A, B, C, D, E, F, G, H. clear.
    unfold submit_task. cbn [snd].
    destruct (is_running m) eqn:Hr; cbn; rewrite ?Hr; cbn;
      rewrite <- ?app_assoc; cbn;
      repeat split; auto; try lia; now rewrite Hr.
Qed.

(** X3 ([submit_task], a series of submissions).  Tasks submitted one
    after the other join the queue at its end in the order of submission,
    and [total_tasks] grows by their number.  [submit_task] never sets
    [is_running]: while the flag is down every single submission creates
    one more loop coroutine, and while it is up none does. *)
Theorem submissions_queue_up_and_create_loops
    (tasks : list Task) (m : AgentOrchestrationMatrix) :
  let m' := run_events m (map Submit tasks) in
  task_queue m' = (task_queue m ++ tasks)%list /\
  total_tasks (orchestration_metrics m')
  = total_tasks (orchestration_metrics m) + Z.of_nat (List.length tasks) /\
  is_running m' = is_running m /\
  ready m'
  = (ready m ++ if is_running m then []
                else repeat OrchestrationLoop (List.length tasks))%list.
Proof.
  cbn zeta. destruct (submit_all_spec tasks m) as (A & B & C & D & _).
  auto.
Qed.

Lemma queue_lookup_last (q : list Task) (task : Task) :
  (forall t, In t q -> id t <> id task) ->
  nth_error (q ++ [task]) (List.length q) = Some task /\
  forall j t', (j < List.length q)%nat ->
    nth_error (q ++ [task]) j = Some t' -> id t' <> id task.
Proof.
  intros Hfresh. split.
  - rewrite nth_error_app2, Nat.sub_diag; auto.
  - intros j t' Hj Hnth. rewrite nth_error_app1 in Hnth by exact Hj.
    apply Hfresh. eapply nth_error_In. exact Hnth.
Qed.

(** X4 ([submit_task] then [get_task_status]).  A task submitted under an
    identifier that is neither completed, nor in flight, nor queued is
    reported as queued, at the position after the tasks queued before
    it, and the call returns that identifier. *)
Theorem submitted_task_is_reported_queued
    (task : Task) (m : AgentOrchestrationMatrix) :
  Dict.get (completed_tasks m) (id task) = None ->
  Dict.get (active_tasks m) (id task) = None ->
  (forall t, In t (task_queue m) -> id t <> id task) ->
  fst (submit_task task m) = id task /\
  get_task_status (snd (submit_task task m)) (id task)
  = Returns (StatusQueued (List.length (task_queue m))).
Proof.
  intros Hc Ha Hq. split; [reflexivity|].
  destruct (queue_lookup_last (task_queue m) task Hq) as [Hnth Hfirst].
  assert (Hfields :
            task_queue (snd (submit_task task m))
            = (task_queue m ++ [task])%list /\
            active_tasks (snd (submit_task task m)) = active_tasks m /\
            completed_tasks (snd (submit_task task m)) = completed_tasks m).
  { unfold submit_task. cbn. destruct (is_running m); repeat split. }
  destruct Hfields as (Eq & Ea & Ec).
  apply (status_of_queued _ _ _ task); rewrite ?Eq, ?Ea, ?Ec; auto.
Qed.

Lemma submitted_task_is_reported_queued_witness :
  Dict.get (completed_tasks Scenario.one_voice_agent)
    (id Scenario.first_task) = None /\
  Dict.get (active_tasks Scenario.one_voice_agent)
    (id Scenario.first_task) = None /\
  get_task_status (snd (submit_task Scenario.first_task
                          Scenario.one_voice_agent)) "task-1"
  = Returns (StatusQueued 0).
Proof.
  refine ((fun H1 H2 =>
             conj H1 (conj H2
               (proj2 (submitted_task_is_reported_queued
                         Scenario.first_task Scenario.one_voice_agent
                         H1 H2 _)))) _ _).
  - intros t [].
  - reflexivity.
  - reflexivity.
Defined.

(** ** [VoiceAgent]: fitness and execution agree *)






(** ** The success rate stays a rate *)





(** ** More on selection and the dispatch pass *)

Lemma sort_reverse_head_In {A : Type} (score : A -> Q) (l : list A) (x : A) :
  hd_error (sort_reverse score Qlt_bool l) = Some x -> In x l.
Proof.
  intros H. apply sort_reverse_head in H.
  destruct H as (pre & post & -> & _). apply in_or_app. right. now left.
Qed.

Lemma select_best_agent_eligible
    (m : AgentOrchestrationMatrix) (task : Task) (ref : string) (a : Agent) :
  _select_best_agent m task = Some (ref, a) ->
  In (ref, a) (agents m) /\ eligible task (ref, a) = true.
Proof.
  unfold _select_best_agent.
  destruct (agents m) as [|e0 r] eqn:Hreg; [discriminate|].
  rewrite agent_scores_filter.
  destruct (map _ (filter (eligible task) (e0 :: r))) as [|s0 ss] eqn:Hs;
    [discriminate|].
  rewrite <- Hs.
  destruct (hd_error (sort_reverse snd Qlt_bool _)) as [[best sc]|] eqn:Hhd;
    [|discriminate].
  cbn. intros [= ->]. apply sort_reverse_head_In in Hhd.
  apply in_map_iff in Hhd. destruct Hhd as (e & [= -> _] & Hin).
  now apply filter_In in Hin.
Qed.

(** X7 ([_select_best_agent] with [_assign_task_to_agent]).  An agent the
    selector names is registered, idle and of positive fitness for the
    task.  The second test of the state in [_assign_task_to_agent]
    therefore never fails: whenever the selector names an agent the
    assignment succeeds, files the task as in flight and creates the
    execution for that agent. *)
Theorem selected_agent_is_assigned
    (m : AgentOrchestrationMatrix) (task : Task) (ref : string) (a : Agent) :
  _select_best_agent m task = Some (ref, a) ->
  In (ref, a) (agents m) /\
  state (self a) = IDLE /\
  (0 < fitness a task)%Q /\
  _assign_task_to_agent task m
  = (Returns true,
     with_ready (ready m ++ [ExecuteTaskWithAgent ref task])
       (with_active_tasks (Dict.set (active_tasks m) (id task) task) m)).
Proof.
  intros Hsel. destruct (select_best_agent_eligible _ _ _ _ Hsel) as [Hin He].
  unfold eligible, is_idle in He. cbn [snd] in He.
  apply andb_true_iff in He. destruct He as [Hidle Hfit].
  split; [exact Hin|]. split.
  - destruct (state (self a)); (reflexivity || discriminate).
  - split; [now apply Qlt_bool_iff|].
    unfold _assign_task_to_agent. rewrite Hsel, Hidle. reflexivity.
Qed.

Lemma selected_agent_is_assigned_witness :
  _select_best_agent Scenario.two_agents Scenario.first_task
  = Some ("voice_b", Scenario.voice_agent_rated "voice_b" 0.8) /\
  state (self (Scenario.voice_agent_rated "voice_b" 0.8)) = IDLE /\
  fst (_assign_task_to_agent Scenario.first_task Scenario.two_agents)
  = Returns true.
Proof.
  refine ((fun H =>
             conj H
               match selected_agent_is_assigned Scenario.two_agents
                       Scenario.first_task "voice_b"
                       (Scenario.voice_agent_rated "voice_b" 0.8) H with
               | conj _ (conj Hidle (conj _ Hassign)) =>
                   conj Hidle (f_equal fst Hassign)
               end) _).
  vm_compute. reflexivity.
Defined.

Lemma filter_partition_perm {A : Type} (p : A -> bool) (l : list A) :
  Permutation l (filter p l ++ filter (fun x => negb (p x)) l).
Proof.
  induction l as [|x l IH]; cbn; auto.
  destruct (p x); cbn.
  - now constructor.
  - now apply Permutation_cons_app.
Qed.

(** The agent reference of the execution a pass creates for a task. *)
Lemma launch_assigned (m : AgentOrchestrationMatrix) (l : list Task) :
  exists refs : list (string * Task),
    flat_map (launch m) l
    = map (fun w => ExecuteTaskWithAgent (fst w) (snd w)) refs /\
    map snd refs = filter (assignable m) l.
Proof.
  induction l as [|t l (refs & H1 & H2)]; [exists []; auto|].
  cbn [flat_map filter]. unfold launch at 1, assignable at 1.
  destruct (_select_best_agent m t) as [[ref best]|].
  - destruct (AgentState_eqb (state (self best)) IDLE).
    + exists ((ref, t) :: refs). cbn. now rewrite H1, H2.
    + exists refs. auto.
  - exists refs. auto.
Qed.

(** X8 ([_process_task_queue], no task lost or doubled).  A dispatch pass
    returns normally, and the tasks queued before it are, up to order,
    the tasks it created an execution for together with the tasks still
    queued after it. *)
Theorem dispatch_pass_conserves_tasks (m : AgentOrchestrationMatrix) :
  exists m' (launched : list (string * Task)),
    _process_task_queue m = (Returns tt, m') /\
    ready m'
    = (ready m
       ++ map (fun w => ExecuteTaskWithAgent (fst w) (snd w)) launched)%list /\
    Permutation (task_queue m) (map snd launched ++ task_queue m').
Proof.
  destruct (process_task_queue_spec m) as (m' & Hrun & Hq & Hrd & _).
  destruct (launch_assigned m (sort_task_queue (task_queue m)))
    as (refs & H1 & H2).
  exists m', refs. split; [exact Hrun|]. split; [now rewrite Hrd, H1|].
  rewrite H2, Hq.
  etransitivity;
    [apply (sort_reverse_perm task_sort_key pair_ltb)|].
  apply filter_partition_perm.
Qed.

Lemma StronglySorted_filter {A : Type} (R : A -> A -> Prop) (p : A -> bool)
    (l : list A) :
  StronglySorted R l -> StronglySorted R (filter p l).
Proof.
  induction 1 as [|x l Hs IH Hall]; cbn; [constructor|].
  destruct (p x); auto. constructor; auto.
  apply Forall_forall. intros y Hy. apply filter_In in Hy.
  rewrite Forall_forall in Hall. now apply Hall.
Qed.

Lemma StronglySorted_weaken {A : Type} (R R' : A -> A -> Prop) (l : list A) :
  (forall a b, R a b -> R' a b) ->
  StronglySorted R l -> StronglySorted R' l.
Proof.
  intros Himp. induction 1 as [|x l Hs IH Hall]; constructor; auto.
  eapply Forall_impl; [|exact Hall]. intros b. apply Himp.
Qed.

(** X9 ([_process_task_queue], order of the queue it leaves).  After a
    dispatch pass every queued task stands before the queued tasks of
    lower priority, and among those of its own priority before the tasks
    whose deadline is earlier, a missing deadline counting as
    [datetime.max]. *)
Theorem queue_after_pass_in_key_order (m : AgentOrchestrationMatrix) :
  exists m',
    _process_task_queue m = (Returns tt, m') /\
    StronglySorted
      (fun a b =>
         priority_value (priority b) < priority_value (priority a) \/
         (priority_value (priority b) = priority_value (priority a) /\
          snd (task_sort_key b) <= snd (task_sort_key a)))
      (task_queue m').
Proof.
  destruct (process_task_queue_spec m) as (m' & Hrun & Hq & _).
  exists m'. split; [exact Hrun|]. rewrite Hq.
  apply StronglySorted_filter.
  apply (StronglySorted_weaken precedes); [|apply sort_task_queue_sorted].
  intros a b. apply precedes_iff.
Qed.

Lemma insert_reverse_same_key {A : Type} (key : A -> Z * Z) (p d : Z)
    (x : A) (l : list A) :
  filter (fun t => if Z.eq_dec (fst (key t)) p
                   then Z.eqb (snd (key t)) d else false)
    (insert_reverse key pair_ltb x l)
  = filter (fun t => if Z.eq_dec (fst (key t)) p
                     then Z.eqb (snd (key t)) d else false)
      (x :: l).
Proof.
  induction l as [|y l IH]; [reflexivity|].
  cbn [insert_reverse].
  destruct (pair_ltb (key x) (key y)) eqn:E; [|reflexivity].
  cbn [filter] in *. rewrite IH.
  apply pair_ltb_true in E.
  destruct (Z.eq_dec (fst (key x)) p) as [Hx|Hx];
    destruct (Z.eq_dec (fst (key y)) p) as [Hy|Hy];
    try reflexivity.
  destruct (Z.eqb (snd (key x)) d) eqn:Ex;
    destruct (Z.eqb (snd (key y)) d) eqn:Ey;
    try reflexivity.
  apply Z.eqb_eq in Ex, Ey. exfalso. lia.
Qed.

Lemma sort_reverse_same_key {A : Type} (key : A -> Z * Z) (p d : Z)
    (l : list A) :
  filter (fun t => if Z.eq_dec (fst (key t)) p
                   then Z.eqb (snd (key t)) d else false)
    (sort_reverse key pair_ltb l)
  = filter (fun t => if Z.eq_dec (fst (key t)) p
                     then Z.eqb (snd (key t)) d else false) l.
Proof.
  induction l as [|x l IH]; [reflexivity|].
  cbn [sort_reverse]. rewrite insert_reverse_same_key.
  cbn [filter]. now rewrite IH.
Qed.

(** X10 (the sort of the dispatch pass is stable).  Tasks of the same
    priority and the same deadline keep, after the sort, the order in
    which they stood in the queue, tasks without deadline counting as due
    at [datetime.max]. *)
Theorem sort_keeps_order_of_equal_keys (q : list Task) (p d : Z) :
  filter (fun t => if Z.eq_dec (fst (task_sort_key t)) p
                   then Z.eqb (snd (task_sort_key t)) d else false)
    (sort_task_queue q)
  = filter (fun t => if Z.eq_dec (fst (task_sort_key t)) p
                     then Z.eqb (snd (task_sort_key t)) d else false) q.
Proof. apply (sort_reverse_same_key task_sort_key). Qed.

(** X11 ([_process_task_queue] marks no agent).  A dispatch pass leaves
    every agent object as it is, so no agent changes state during the
    pass, and it leaves the completed map, the counters, [is_running] and
    the suspended coroutines alone; what is in flight stays in flight. *)
Theorem dispatch_pass_leaves_agents (m : AgentOrchestrationMatrix) :
  exists m',
    _process_task_queue m = (Returns tt, m') /\
    agents m' = agents m /\
    completed_tasks m' = completed_tasks m /\
    orchestration_metrics m' = orchestration_metrics m /\
    is_running m' = is_running m /\
    suspended m' = suspended m /\
    forall k, Dict.mem (active_tasks m) k = true ->
              Dict.mem (active_tasks m') k = true.
Proof.
  destruct (process_task_queue_spec m)
    as (m' & Hrun & _ & _ & Hact & (A & B & C & D & E)).
  exists m'. repeat split; auto.
  intros k. rewrite Hact.
  generalize (filter (assignable m) (sort_task_queue (task_queue m))).
  intros ts. generalize (active_tasks m).
  induction ts as [|t ts IH]; intros d Hk; cbn; auto.
  apply IH. unfold mark_active. rewrite dict_mem_set, Hk. apply orb_true_r.
Qed.

Lemma filter_none {A : Type} (p : A -> bool) (l : list A) :
  (forall x, In x l -> p x = false) ->
  filter p l = [] /\ filter (fun x => negb (p x)) l = l.
Proof.
  induction l as [|x l IH]; intros H; [split; reflexivity|].
  cbn. rewrite (H x) by now left. cbn.
  destruct IH as [E1 E2]; [intros y Hy; apply H; now right|].
  split; [exact E1|now rewrite E2].
Qed.

(** X12 ([_process_task_queue] without a match).  When the selector names
    no agent for any queued task, as with an empty registry, the pass only
    sorts the queue: no execution is created and nothing becomes in
    flight. *)
Theorem dispatch_pass_without_match (m : AgentOrchestrationMatrix) :
  (forall task, In task (task_queue m) -> _select_best_agent m task = None) ->
  exists m',
    _process_task_queue m = (Returns tt, m') /\
    task_queue m' = sort_task_queue (task_queue m) /\
    ready m' = ready m /\
    active_tasks m' = active_tasks m.
Proof.
  intros Hnone.
  destruct (process_task_queue_spec m) as (m' & Hrun & Hq & Hrd & Hact & _).
  assert (Ha : forall t, In t (sort_task_queue (task_queue m)) ->
                         assignable m t = false).
  { intros t Ht. apply (proj1 (sort_task_queue_In _ _)) in Ht.
    unfold assignable. now rewrite (Hnone t Ht). }
  exists m'. split; [exact Hrun|].
  destruct (filter_none _ _ Ha) as [Hf Hkeep].
  destruct (launch_assigned m (sort_task_queue (task_queue m)))
    as (refs & H1 & H2).
  rewrite Hf in H2. apply map_eq_nil in H2. subst refs.
  split; [|split].
  - now rewrite Hq, Hkeep.
  - now rewrite Hrd, H1, app_nil_r.
  - now rewrite Hact, Hf.
Qed.

Lemma dispatch_pass_without_match_witness :
  (forall task, In task (task_queue Scenario.three_queued) ->
     _select_best_agent Scenario.three_queued task = None) /\
  exists m',
    _process_task_queue Scenario.three_queued = (Returns tt, m') /\
    task_queue m' = sort_task_queue (task_queue Scenario.three_queued) /\
    ready m' = ready Scenario.three_queued /\
    active_tasks m' = active_tasks Scenario.three_queued.
Proof.
  refine ((fun H =>
             conj H (dispatch_pass_without_match Scenario.three_queued H))
            _).
  intros task _. reflexivity.
Defined.

(** ** More on the deadline sweep *)

Lemma expire_fields (current_time : datetime) (m : AgentOrchestrationMatrix)
    (item : string * Task) :
  let m' := expire current_time m item in
  agents m' = agents m /\ task_queue m' = task_queue m /\
  ready m' = ready m /\ suspended m' = suspended m /\
  is_running m' = is_running m /\
  active_tasks m' = drop_expired current_time (active_tasks m) item /\
  total_tasks (orchestration_metrics m')
  = total_tasks (orchestration_metrics m) /\
  agent_utilization (orchestration_metrics m')
  = agent_utilization (orchestration_metrics m) /\
  forall k, Dict.mem (completed_tasks m) k = true ->
            Dict.mem (completed_tasks m') k = true.
Proof.
  destruct item as [k t]. unfold expire, drop_expired. cbn [fst snd].
  destruct (deadline_exceeded current_time t); cbn; repeat split; auto.
  intros k' Hk'. rewrite dict_mem_set, Hk'. apply orb_true_r.
Qed.

Lemma sweep_fields (current_time : datetime) (items : list (string * Task)) :
  forall m : AgentOrchestrationMatrix,
  let m' := fold_left (expire current_time) items m in
  agents m' = agents m /\ task_queue m' = task_queue m /\
  ready m' = ready m /\ suspended m' = suspended m /\
  is_running m' = is_running m /\
  active_tasks m'
  = fold_left (drop_expired current_time) items (active_tasks m) /\
  total_tasks (orchestration_metrics m')
  = total_tasks (orchestration_metrics m) /\
  agent_utilization (orchestration_metrics m')
  = agent_utilization (orchestration_metrics m) /\
  forall k, Dict.mem (completed_tasks m) k = true ->
            Dict.mem (completed_tasks m') k = true.
Proof.
  induction items as [|item items IH]; intros m; cbn zeta.
  - cbn. repeat split; auto.
  - cbn [fold_left].
    destruct (IH (expire current_time m item))
      as (A & B & C & D & E & F & G & H & I).
    destruct (expire_fields current_time m item)
      as (A' & B' & C' & D' & E' & F' & G' & H' & I').
    cbn zeta in *. rewrite A, B, C, D, E, F, G, H, A', B', C', D', E', F', G', H'.
    repeat split; auto.
Qed.

Lemma dict_In_del (d : Dict.t Task) (k0 k : string) (t : Task) :
  In (k, t) (Dict.del d k0) <-> In (k, t) d /\ k0 <> k.
Proof.
  rewrite dict_del_filter, filter_In. cbn [fst].
  rewrite negb_true_iff. now rewrite String.eqb_neq.
Qed.

Lemma drop_expired_In (current_time : datetime)
    (items : list (string * Task)) (k : string) (t : Task) :
  forall d : Dict.t Task,
  In (k, t) (fold_left (drop_expired current_time) items d) <->
  In (k, t) d /\
  forall item, In item items ->
    deadline_exceeded current_time (snd item) = true -> fst item <> k.
Proof.
  induction items as [|item items IH]; intros d; cbn [fold_left].
  - split; [intros H; split; [exact H|intros ? []]|tauto].
  - rewrite IH. unfold drop_expired at 1.
    destruct (deadline_exceeded current_time (snd item)) eqn:E.
    + rewrite dict_In_del. split.
      * intros [[Hin Hne] Hrest]. split; [exact Hin|].
        intros it [<-|Hit] Hexp; auto.
      * intros [Hin Hall]. split; [split; [exact Hin|]|].
        -- apply Hall; [now left|exact E].
        -- intros it Hit. apply Hall. now right.
    + split.
      * intros [Hin Hrest]. split; [exact Hin|].
        intros it [<-|Hit] Hexp; [congruence|auto].
      * intros [Hin Hall]. split; [exact Hin|].
        intros it Hit. apply Hall. now right.
Qed.

Lemma deadline_exceeded_false (current_time : datetime) (task : Task) :
  deadline_exceeded current_time task = false <->
  match deadline task with
  | Some d => current_time <= d
  | None => True
  end.
Proof.
  unfold deadline_exceeded. destruct (deadline task) as [d|].
  - apply Z.ltb_ge.
  - tauto.
Qed.

(** X13 ([_monitor_active_tasks], what stays in flight).  After a sweep
    the in-flight tasks are exactly those of before whose deadline is
    missing or not yet passed; a task whose deadline is the very instant
    of the sweep stays.  (The keys of the in-flight map are distinct, as
    those of a dictionary are.) *)
Theorem sweep_keeps_exactly_unexpired
    (now : Clock) (m : AgentOrchestrationMatrix) :
  NoDup (map fst (active_tasks m)) ->
  forall k task,
    In (k, task) (active_tasks (_monitor_active_tasks now m)) <->
    In (k, task) (active_tasks m) /\
    match deadline task with
    | Some d => datetime_now now <= d
    | None => True
    end.
Proof.
  intros Hnd k task. unfold _monitor_active_tasks, Dict.items.
  destruct (sweep_fields (datetime_now now) (active_tasks m) m)
    as (_ & _ & _ & _ & _ & -> & _).
  rewrite drop_expired_In, <- deadline_exceeded_false. split.
  - intros [Hin Hall]. split; [exact Hin|].
    destruct (deadline_exceeded (datetime_now now) task) eqn:E; auto.
    exfalso. apply (Hall (k, task) Hin); auto.
  - intros [Hin Hexp]. split; [exact Hin|].
    intros [k' t'] Hin' Hexp' Hk. cbn [fst snd] in *. subst k'.
    assert (t' = task).
    { apply (dict_In_get _ _ _ Hnd) in Hin, Hin'. congruence. }
    congruence.
Qed.

(** The deadline of the task is 500 ms after the start: the sweep at that
    very instant leaves the task in flight. *)
Lemma sweep_keeps_exactly_unexpired_witness :
  NoDup (map fst (active_tasks Scenario.urgent_started)) /\
  In ("task-1", Scenario.urgent)
    (active_tasks
       (_monitor_active_tasks (Scenario.at_ms 500) Scenario.urgent_started)).
Proof.
  refine ((fun H =>
             conj H
               (proj2 (sweep_keeps_exactly_unexpired (Scenario.at_ms 500)
                         Scenario.urgent_started H "task-1" Scenario.urgent)
                  (conj _ _))) _).
  - vm_compute. auto.
  - vm_compute. discriminate.
  - vm_compute. repeat constructor. intros [].
Defined.

(** X14 ([_monitor_active_tasks] with nothing overdue).  When no in-flight
    task is past its deadline, in particular when nothing is in flight,
    the sweep changes nothing at all. *)
Theorem sweep_without_expiry_is_identity
    (now : Clock) (m : AgentOrchestrationMatrix) :
  (forall k task, In (k, task) (active_tasks m) ->
     deadline_exceeded (datetime_now now) task = false) ->
  _monitor_active_tasks now m = m.
Proof.
  unfold _monitor_active_tasks, Dict.items.
  generalize (active_tasks m). intros items.
  induction items as [|[k t] items IH]; intros H; [reflexivity|].
  cbn [fold_left]. unfold expire at 2.
  rewrite (H k t) by now left. apply IH.
  intros k' t' Hin. apply (H k' t'). now right.
Qed.

Lemma sweep_without_expiry_is_identity_witness :
  (forall k task, In (k, task) (active_tasks Scenario.urgent_started) ->
     deadline_exceeded (datetime_now (Scenario.at_ms 100)) task = false) /\
  _monitor_active_tasks (Scenario.at_ms 100) Scenario.urgent_started
  = Scenario.urgent_started.
Proof.
  refine ((fun H =>
             conj H
               (sweep_without_expiry_is_identity (Scenario.at_ms 100)
                  Scenario.urgent_started H)) _).
  intros k task [[= <- <-]|[]]. reflexivity.
Defined.

(** X15 ([_monitor_active_tasks] cancels nothing).  The sweep touches
    neither the coroutines, created or suspended, nor the agents: an
    execution whose task it declares overdue stays suspended and its agent
    stays as it is.  It leaves the queue, [is_running], [total_tasks],
    [successful_tasks] and the utilization alone, and it removes no
    recorded response. *)
Theorem sweep_cancels_nothing (now : Clock) (m : AgentOrchestrationMatrix) :
  let m' := _monitor_active_tasks now m in
  ready m' = ready m /\
  suspended m' = suspended m /\
  agents m' = agents m /\
  task_queue m' = task_queue m /\
  is_running m' = is_running m /\
  total_tasks (orchestration_metrics m')
  = total_tasks (orchestration_metrics m) /\
  successful_tasks (orchestration_metrics m')
  = successful_tasks (orchestration_metrics m) /\
  agent_utilization (orchestration_metrics m')
  = agent_utilization (orchestration_metrics m) /\
  forall k, Dict.mem (completed_tasks m) k = true ->
            Dict.mem (completed_tasks m') k = true.
Proof.
  cbn zeta. unfold _monitor_active_tasks, Dict.items.
  destruct (sweep_fields (datetime_now now) (active_tasks m) m)
    as (A & B & C & D & E & _ & G & H & I).
  destruct (sweep_counters (datetime_now now) (active_tasks m) m) as [S _].
  cbn zeta in *. repeat split; auto.
Qed.

(** X16 ([_monitor_active_tasks] then [get_task_status]).  An in-flight
    task past its deadline is, right after the sweep, reported as
    completed without success by the agent identifier
    [orchestration_matrix], with no output and execution time 0.0. *)
Theorem overdue_task_reported_failed
    (now : Clock) (m : AgentOrchestrationMatrix) (task : Task) :
  In (id task, task) (active_tasks m) ->
  deadline_exceeded (datetime_now now) task = true ->
  get_task_status (_monitor_active_tasks now m) (id task)
  = Returns (StatusCompleted false None 0.0 "orchestration_matrix").
Proof.
  intros Hin Hexp. unfold get_task_status, _monitor_active_tasks.
  rewrite (sweep_records_timeout (datetime_now now) _ (id task) m);
    [reflexivity|].
  right. exists task. auto.
Qed.

Lemma overdue_task_reported_failed_witness :
  In (id Scenario.urgent, Scenario.urgent)
    (active_tasks Scenario.urgent_started) /\
  deadline_exceeded (datetime_now (Scenario.at_ms 600)) Scenario.urgent
  = true /\
  get_task_status
    (_monitor_active_tasks (Scenario.at_ms 600) Scenario.urgent_started)
    (id Scenario.urgent)
  = Returns (StatusCompleted false None 0.0 "orchestration_matrix").
Proof.
  refine ((fun H1 H2 =>
             conj H1 (conj H2
               (overdue_task_reported_failed (Scenario.at_ms 600)
                  Scenario.urgent_started Scenario.urgent H1 H2))) _ _).
  - vm_compute. auto.
  - reflexivity.
Defined.

(** ** More on task execution *)

(** X17 ([_execute_task_with_agent], start of an execution).  When the
    agent has a utilization entry, a starting execution raises that entry
    by one, runs the agent's [execute_task] up to its suspension and then
    waits: nothing is recorded as completed, no counter moves and the task
    stays in flight. *)
Theorem execution_start_enters_agent
    (now : Clock) (ref : string) (task : Task)
    (m : AgentOrchestrationMatrix) (a : Agent) (u : Q) :
  Dict.get (agents m) ref = Some a ->
  Dict.get (agent_utilization (orchestration_metrics m)) (agent_id (self a))
  = Some u ->
  let m' := _execute_task_with_agent_start now ref task m in
  Dict.get (agent_utilization (orchestration_metrics m'))
    (agent_id (self a)) = Some (u + 1)%Q /\
  Dict.get (agents m') ref
  = Some (with_self (execute_task_enter (class a) now (self a) task) a) /\
  suspended m' = (suspended m ++ [AgentExecuting ref task now])%list /\
  completed_tasks m' = completed_tasks m /\
  active_tasks m' = active_tasks m /\
  task_queue m' = task_queue m /\
  successful_tasks (orchestration_metrics m')
  = successful_tasks (orchestration_metrics m) /\
  failed_tasks (orchestration_metrics m')
  = failed_tasks (orchestration_metrics m).
Proof.
  intros Hget Hu. cbn zeta. unfold _execute_task_with_agent_start.
  rewrite Hget. unfold increment_utilization. rewrite Hu. cbn.
  rewrite !dict_get_set_same. repeat split.
Qed.

Lemma execution_start_enters_agent_witness :
  Dict.get (agents Examples.urgent_assigned) "voice_agent_001"
  = Some (VoiceAgent (Scenario.at_ms 0)) /\
  Dict.get (agent_utilization (orchestration_metrics Examples.urgent_assigned))
    (agent_id (self (VoiceAgent (Scenario.at_ms 0)))) = Some 0.0%Q /\
  suspended
    (_execute_task_with_agent_start (Scenario.at_ms 0) "voice_agent_001"
       Scenario.urgent Examples.urgent_assigned)
  = (suspended Examples.urgent_assigned
     ++ [AgentExecuting "voice_agent_001" Scenario.urgent
           (Scenario.at_ms 0)])%list.
Proof.
  refine ((fun H1 H2 =>
             conj H1 (conj H2
               match execution_start_enters_agent (Scenario.at_ms 0)
                       "voice_agent_001" Scenario.urgent
                       Examples.urgent_assigned
                       (VoiceAgent (Scenario.at_ms 0)) 0.0%Q H1 H2 with
               | conj _ (conj _ (conj Hs _)) => Hs
               end)) _ _).
  - reflexivity.
  - reflexivity.
Defined.





(** ** The loop and [shutdown] *)

(** X20 ([_orchestration_loop], one turn).  A turn of the loop that finds
    the queue and the in-flight map empty ends the loop: [is_running] goes
    down and nothing else changes.  Any other turn makes the dispatch
    pass, which never raises, then the sweep, and suspends the loop again
    with [is_running] as it was; no turn ends the loop by an
    exception. *)
Theorem loop_turn (now : Clock) (m : AgentOrchestrationMatrix) :
  (task_queue m = [] -> active_tasks m = [] ->
   loop_iteration now m = with_is_running false m) /\
  (task_queue m <> [] \/ active_tasks m <> [] ->
   exists m1,
     _process_task_queue m = (Returns tt, m1) /\
     loop_iteration now m
     = with_suspended (suspended m ++ [LoopSleeping])
         (_monitor_active_tasks now m1) /\
     is_running (loop_iteration now m) = is_running m).
Proof.
  split.
  - intros Hq Ha. unfold loop_iteration. now rewrite Hq, Ha.
  - intros Hwork.
    destruct (process_task_queue_spec m)
      as (m1 & Hrun & _ & _ & _ & (_ & _ & _ & Hr & Hs)).
    exists m1. split; [exact Hrun|].
    assert (Hcond : negb (is_empty (task_queue m))
                    || negb (is_empty (active_tasks m)) = true).
    { destruct Hwork as [H|H];
        [destruct (task_queue m)|destruct (active_tasks m)];
        try congruence; cbn; auto using orb_true_r. }
    unfold loop_iteration. rewrite Hcond.
    assert (Hbody :
              ((if negb (is_empty (task_queue m)) then _process_task_queue
                else ret tt) ;;;
               modify (_monitor_active_tasks now))%monad m
              = (Returns tt, _monitor_active_tasks now m1)).
    { unfold bind, modify.
      destruct (task_queue m) eqn:Hq; cbn [is_empty negb].
      - unfold _process_task_queue in Hrun. rewrite Hq in Hrun.
        injection Hrun as <-. reflexivity.
      - now rewrite Hrun. }
    rewrite Hbody.
    destruct (sweep_fields (datetime_now now) (active_tasks m1) m1)
      as (_ & _ & _ & Hsusp & Hrunning & _).
    cbn zeta in Hsusp, Hrunning.
    unfold _monitor_active_tasks at 1 3, Dict.items.
    rewrite Hsusp, Hs. split; [reflexivity|].
    cbn. unfold _monitor_active_tasks, Dict.items. now rewrite Hrunning.
Qed.

(** Nothing of the dispatch pass and of the sweep reads [is_running]. *)
Lemma assign_task_flag (b : bool) (task : Task) (m : AgentOrchestrationMatrix) :
  _assign_task_to_agent task (with_is_running b m)
  = (fst (_assign_task_to_agent task m),
     with_is_running b (snd (_assign_task_to_agent task m))).
Proof.
  unfold _assign_task_to_agent.
  change (_select_best_agent (with_is_running b m) task)
    with (_select_best_agent m task).
  destruct (_select_best_agent m task) as [[ref best]|]; [|reflexivity].
  destruct (AgentState_eqb (state (self best)) IDLE); reflexivity.
Qed.

Lemma assign_each_flag (b : bool) (tasks : list Task) :
  forall m : AgentOrchestrationMatrix,
  assign_each tasks (with_is_running b m)
  = (fst (assign_each tasks m), with_is_running b (snd (assign_each tasks m))).
Proof.
  induction tasks as [|task tasks IH]; intros m; [reflexivity|].
  cbn [assign_each]. unfold bind at 1 3 5. rewrite assign_task_flag.
  destruct (_assign_task_to_agent task m) as [[assigned|e] m1]; cbn [fst snd];
    [|reflexivity].
  unfold bind. rewrite IH.
  destruct (assign_each tasks m1) as [[removed|e] m2]; reflexivity.
Qed.

Lemma remove_each_flag (b : bool) (tasks : list Task) :
  forall m : AgentOrchestrationMatrix,
  remove_each tasks (with_is_running b m)
  = (fst (remove_each tasks m), with_is_running b (snd (remove_each tasks m))).
Proof.
  induction tasks as [|task tasks IH]; intros m; [reflexivity|].
  cbn [remove_each]. unfold bind, queue_remove.
  change (task_queue (with_is_running b m)) with (task_queue m).
  destruct (list_remove task (task_queue m)) as [q|]; [|reflexivity].
  change (with_task_queue q (with_is_running b m))
    with (with_is_running b (with_task_queue q m)).
  apply IH.
Qed.

Lemma process_task_queue_flag (b : bool) (m : AgentOrchestrationMatrix) :
  _process_task_queue (with_is_running b m)
  = (fst (_process_task_queue m),
     with_is_running b (snd (_process_task_queue m))).
Proof.
  unfold _process_task_queue.
  change (task_queue (with_is_running b m)) with (task_queue m).
  destruct (task_queue m) as [|t q] eqn:Hq; [reflexivity|].
  set (sorted := sort_task_queue (t :: q)).
  change (with_task_queue sorted (with_is_running b m))
    with (with_is_running b (with_task_queue sorted m)).
  set (m1 := with_task_queue sorted m).
  change (task_queue (with_is_running b m1)) with (task_queue m1).
  unfold bind. rewrite assign_each_flag.
  destruct (assign_each (task_queue m1) m1) as [[removed|e] m2];
    cbn [fst snd]; [|reflexivity].
  apply remove_each_flag.
Qed.

Lemma monitor_flag (b : bool) (now : Clock) (m : AgentOrchestrationMatrix) :
  _monitor_active_tasks now (with_is_running b m)
  = with_is_running b (_monitor_active_tasks now m).
Proof.
  unfold _monitor_active_tasks, Dict.items.
  change (active_tasks (with_is_running b m)) with (active_tasks m).
  generalize (active_tasks m). intros items. revert m.
  induction items as [|[k t] items IH]; intros m; [reflexivity|].
  cbn [fold_left]. rewrite <- IH. f_equal.
  unfold expire. destruct (deadline_exceeded (datetime_now now) t); reflexivity.
Qed.

(** X21 ([shutdown] does not stop the loop).  The loop never reads
    [is_running]: a turn of the loop after [shutdown] does exactly what it
    does without [shutdown], the flag apart, which ends down.  As long as
    tasks are queued or in flight the loop therefore goes on dispatching
    after [shutdown]. *)
Theorem shutdown_does_not_stop_the_loop
    (now : Clock) (m : AgentOrchestrationMatrix) :
  loop_iteration now (shutdown m) = shutdown (loop_iteration now m).
Proof.
  unfold shutdown, loop_iteration.
  change (task_queue (with_is_running false m)) with (task_queue m).
  change (active_tasks (with_is_running false m)) with (active_tasks m).
  destruct (negb (is_empty (task_queue m)) || negb (is_empty (active_tasks m)));
    [|reflexivity].
  unfold bind, modify.
  destruct (negb (is_empty (task_queue m))).
  - rewrite process_task_queue_flag.
    destruct (_process_task_queue m) as [[[]|e] m1]; cbn [fst snd].
    + now rewrite monitor_flag.
    + reflexivity.
  - unfold ret. now rewrite monitor_flag.
Qed.

(** ** The status reports *)

Lemma dict_set_new {V : Type} (d : Dict.t V) (k : string) (v : V) :
  Dict.get d k = None -> Dict.set d k v = (d ++ [(k, v)])%list.
Proof.
  induction d as [|[k0 v0] d IH]; cbn; auto.
  destruct (String.eqb k k0); [discriminate|]. intros H. now rewrite IH.
Qed.

Lemma dict_get_app_None {V : Type} (d d' : Dict.t V) (k : string) :
  Dict.get d k = None -> Dict.get (d ++ d')%list k = Dict.get d' k.
Proof.
  induction d as [|[k0 v0] d IH]; cbn; auto.
  destruct (String.eqb k k0); [discriminate|auto].
Qed.

Lemma dict_get_notin {V : Type} (d : Dict.t V) (k : string) :
  ~ In k (map fst d) -> Dict.get d k = None.
Proof.
  intros H. destruct (Dict.get d k) as [v|] eqn:E; auto.
  exfalso. apply H. apply dict_get_In in E.
  change k with (fst (k, v)). now apply in_map.
Qed.

Lemma fold_set_distinct {V W : Type} (g : string * V -> W)
    (l : list (string * V)) :
  forall acc : Dict.t W,
  NoDup (map fst l) ->
  (forall k, In k (map fst l) -> Dict.get acc k = None) ->
  fold_left (fun d e => Dict.set d (fst e) (g e)) l acc
  = (acc ++ map (fun e => (fst e, g e)) l)%list.
Proof.
  induction l as [|e l IH]; intros acc Hnd Hacc; cbn.
  - now rewrite app_nil_r.
  - cbn in Hnd. inversion Hnd as [|? ? Hnotin Hnd']; subst.
    rewrite dict_set_new by (apply Hacc; now left).
    rewrite IH; auto.
    + now rewrite <- app_assoc.
    + intros k Hk. rewrite dict_get_app_None by (apply Hacc; now right).
      cbn. destruct (String.eqb k (fst e)) eqn:E; auto.
      apply String.eqb_eq in E. subst k. contradiction.
Qed.

(** X22 ([get_orchestration_status], the agents listed).  The report
    lists every registered agent once, in registration order, under its
    registry key, each with what its own [get_status] answers; the count
    of registered agents is the length of that list.  (The keys of the
    registry are distinct, as those of a dictionary are.) *)
Theorem orchestration_status_lists_agents (m : AgentOrchestrationMatrix) :
  NoDup (map fst (agents m)) ->
  status_agent_statuses (get_orchestration_status m)
  = map (fun entry => (fst entry, get_status (self (snd entry)))) (agents m) /\
  status_registered_agents (get_orchestration_status m)
  = List.length (status_agent_statuses (get_orchestration_status m)).
Proof.
  intros Hnd.
  assert (H : status_agent_statuses (get_orchestration_status m)
              = map (fun entry => (fst entry, get_status (self (snd entry))))
                  (agents m)).
  { unfold get_orchestration_status, Dict.items.
    cbn [status_agent_statuses].
    now rewrite (fold_set_distinct (fun e => get_status (self (snd e)))). }
  split; [exact H|]. rewrite H, length_map. reflexivity.
Qed.

Lemma orchestration_status_lists_agents_witness :
  NoDup (map fst (agents Scenario.two_agents)) /\
  map fst (status_agent_statuses (get_orchestration_status Scenario.two_agents))
  = ["voice_a"; "voice_b"] /\
  status_registered_agents (get_orchestration_status Scenario.two_agents)
  = 2%nat.
Proof.
  refine ((fun H =>
             conj H
               match orchestration_status_lists_agents Scenario.two_agents H
               with
               | conj Hlist Hcount =>
                   conj (eq_trans (f_equal (map fst) Hlist) _)
                        (eq_trans Hcount _)
               end) _).
  - reflexivity.
  - reflexivity.
  - vm_compute. repeat constructor; cbn; intuition discriminate.
Defined.

Lemma filtered_ids_distinct (keep : Task -> bool) (ts : list Task) :
  NoDup (map id ts) -> NoDup (map id (filter keep ts)).
Proof.
  induction ts as [|t ts IH]; cbn; auto.
  intros Hnd. inversion Hnd as [|? ? Hnotin Hnd']; subst.
  destruct (keep t); cbn; auto. constructor; auto.
  intros Hin. apply Hnotin. apply in_map_iff in Hin.
  destruct Hin as (y & Hy & Hin). apply filter_In in Hin.
  rewrite <- Hy. apply in_map. tauto.
Qed.

Lemma fold_mark_active_length (ts : list Task) :
  forall d : Dict.t Task,
  NoDup (map id ts) ->
  (forall t, In t ts -> Dict.get d (id t) = None) ->
  List.length (fold_left mark_active ts d)
  = (List.length d + List.length ts)%nat.
Proof.
  induction ts as [|t ts IH]; intros d Hnd Hd; cbn [fold_left List.length].
  - lia.
  - cbn in Hnd. inversion Hnd as [|? ? Hnotin Hnd']; subst.
    rewrite IH; auto.
    + unfold mark_active. rewrite dict_set_length_new by (apply Hd; now left).
      lia.
    + intros t' Ht'. unfold mark_active. rewrite dict_get_set_other.
      * apply Hd. now right.
      * intros Heq. apply Hnotin. rewrite Heq. now apply in_map.
Qed.

Lemma filter_partition_length {A : Type} (p : A -> bool) (l : list A) :
  (List.length (filter p l) + List.length (filter (fun x => negb (p x)) l)
   = List.length l)%nat.
Proof.
  induction l as [|x l IH]; cbn; auto. destruct (p x); cbn; lia.
Qed.

(** X23 ([get_orchestration_status] across a dispatch pass).  When the
    queued identifiers are distinct and none of them is in flight, a
    dispatch pass moves tasks from the queue to the in-flight map and
    nowhere else: the counts of queued and of in-flight tasks in the
    report add up to the same number before and after, and the counts of
    completed tasks and of registered agents stay. *)
Theorem dispatch_pass_keeps_reported_totals (m : AgentOrchestrationMatrix) :
  queued_ids_fresh m ->
  exists m',
    _process_task_queue m = (Returns tt, m') /\
    (status_queued_tasks (get_orchestration_status m')
     + status_active_tasks (get_orchestration_status m')
     = status_queued_tasks (get_orchestration_status m)
       + status_active_tasks (get_orchestration_status m))%nat /\
    status_completed_tasks (get_orchestration_status m')
    = status_completed_tasks (get_orchestration_status m) /\
    status_registered_agents (get_orchestration_status m')
    = status_registered_agents (get_orchestration_status m).
Proof.
  intros [Hnd Hfresh].
  destruct (process_task_queue_spec m)
    as (m' & Hrun & Hq & _ & Hact & (Hag & Hc & _)).
  exists m'. split; [exact Hrun|].
  unfold get_orchestration_status.
  cbn [status_queued_tasks status_active_tasks status_completed_tasks
       status_registered_agents].
  rewrite Hq, Hact, Hc, Hag. split; [|split; reflexivity].
  pose proof (sort_reverse_perm task_sort_key pair_ltb (task_queue m)) as Hp.
  fold (sort_task_queue (task_queue m)) in Hp.
  rewrite fold_mark_active_length.
  - pose proof (filter_partition_length (assignable m)
                  (sort_task_queue (task_queue m))) as Hlen.
    rewrite <- (Permutation_length Hp) in Hlen. lia.
  - apply filtered_ids_distinct.
    eapply Permutation_NoDup; [apply Permutation_map; exact Hp|exact Hnd].
  - intros t Ht. apply filter_In in Ht. destruct Ht as [Ht _].
    apply (proj1 (sort_task_queue_In _ _)) in Ht. now apply Hfresh.
Qed.

Lemma dispatch_pass_keeps_reported_totals_witness :
  queued_ids_fresh Scenario.mixed_queue /\
  exists m',
    _process_task_queue Scenario.mixed_queue = (Returns tt, m') /\
    (status_queued_tasks (get_orchestration_status m')
     + status_active_tasks (get_orchestration_status m') = 2)%nat.
Proof.
  refine ((fun H : queued_ids_fresh Scenario.mixed_queue =>
             conj H
               match dispatch_pass_keeps_reported_totals
                       Scenario.mixed_queue H with
               | ex_intro _ m' (conj Hrun (conj Hsum _)) =>
                   ex_intro _ m' (conj Hrun (eq_trans Hsum _))
               end) _).
  - reflexivity.
  - split.
    + repeat constructor; vm_compute; intuition discriminate.
    + intros task [<-|[<-|[]]]; split; reflexivity.
Defined.


(** ** Runs: the effect of each step *)

Lemma dict_del_absent {V : Type} (d : Dict.t V) (k : string) :
  Dict.mem d k = false -> Dict.del d k = d.
Proof.
  unfold Dict.mem. induction d as [|[k0 v0] d IH]; cbn; auto.
  destruct (String.eqb k k0); [discriminate|]. intros H. now rewrite IH.
Qed.

Lemma discard_active_effect (task : Task) (m : AgentOrchestrationMatrix) :
  discard_active task m
  = (Returns tt,
     with_active_tasks (Dict.del (active_tasks m) (id task)) m).
Proof.
  unfold discard_active, modify.
  destruct (Dict.mem (active_tasks m) (id task)) eqn:E; [reflexivity|].
  rewrite (dict_del_absent _ _ E). now destruct m.
Qed.

(** What the end of an execution does, whichever way it ends: it records
    a response for the task and takes the task out of the in-flight map;
    the counters apart, it leaves what [awaited] left. *)
Lemma tail_effect (now : Clock) (aid : string) (task : Task)
    (awaited : M AgentOrchestrationMatrix AgentResponse)
    (m m1 : AgentOrchestrationMatrix) (r : outcome AgentResponse) :
  awaited m = (r, m1) ->
  exists response m',
    _execute_task_with_agent_tail now aid task awaited m = (Returns tt, m') /\
    task_queue m' = task_queue m1 /\
    active_tasks m' = Dict.del (active_tasks m1) (id task) /\
    completed_tasks m' = Dict.set (completed_tasks m1) (id task) response /\
    ready m' = ready m1 /\
    suspended m' = suspended m1 /\
    agents m' = agents m1 /\
    is_running m' = is_running m1 /\
    total_tasks (orchestration_metrics m')
    = total_tasks (orchestration_metrics m1).
Proof.
  intros Haw.
  unfold _execute_task_with_agent_tail, try_finally, try_except, bind.
  rewrite Haw.
  destruct r as [response|e].
  - exists response.
    unfold store_response, count_response, modify.
    rewrite discard_active_effect.
    eexists. split; [reflexivity|]. cbn.
    destruct (success response); repeat split.
  - exists (error_response now aid task e).
    unfold on_exception, bind, store_response, modify.
    rewrite discard_active_effect.
    eexists. split; [reflexivity|]. cbn. repeat split.
Qed.

(** The start of an execution: it suspends inside the agent, or it ends
    at once on the missing utilization entry. *)
Lemma execution_start_effect
    (now : Clock) (ref : string) (task : Task)
    (m : AgentOrchestrationMatrix) (a : Agent) :
  Dict.get (agents m) ref = Some a ->
  let m' := _execute_task_with_agent_start now ref task m in
  task_queue m' = task_queue m /\
  ready m' = ready m /\
  is_running m' = is_running m /\
  total_tasks (orchestration_metrics m')
  = total_tasks (orchestration_metrics m) /\
  ((suspended m' = (suspended m ++ [AgentExecuting ref task now])%list /\
    active_tasks m' = active_tasks m /\
    completed_tasks m' = completed_tasks m /\
    exists a', agents m' = Dict.set (agents m) ref a') \/
   (suspended m' = suspended m /\
    active_tasks m' = Dict.del (active_tasks m) (id task) /\
    (exists response,
       completed_tasks m'
       = Dict.set (completed_tasks m) (id task) response) /\
    agents m' = agents m)).
Proof.
  intros Hget. cbn zeta. unfold _execute_task_with_agent_start.
  rewrite Hget. unfold increment_utilization.
  destruct (Dict.get (agent_utilization (orchestration_metrics m))
              (agent_id (self a))) as [u|].
  - cbn. repeat split. left. repeat split. eauto.
  - destruct (tail_effect now (agent_id (self a)) task
                (raise (Exception ("'" ++ agent_id (self a) ++ "'")))
                m m _ eq_refl)
      as (response & m' & -> & A & B & C & D & E & F & G & H).
    cbn [snd]. rewrite A, B, C, D, E, F, G, H.
    repeat split. right. repeat split. eauto.
Qed.

(** The end of an execution. *)
Lemma execution_resume_effect
    (entered now : Clock) (ref : string) (task : Task)
    (m : AgentOrchestrationMatrix) (a : Agent) :
  Dict.get (agents m) ref = Some a ->
  let m' := snd (_execute_task_with_agent_resume entered now ref task m) in
  task_queue m' = task_queue m /\
  ready m' = ready m /\
  suspended m' = suspended m /\
  is_running m' = is_running m /\
  total_tasks (orchestration_metrics m')
  = total_tasks (orchestration_metrics m) /\
  active_tasks m' = Dict.del (active_tasks m) (id task) /\
  (exists response,
     completed_tasks m' = Dict.set (completed_tasks m) (id task) response) /\
  exists a', agents m' = Dict.set (agents m) ref a'.
Proof.
  intros Hget. cbn zeta. unfold _execute_task_with_agent_resume.
  rewrite Hget.
  destruct (on_agent ref a (execute_task_resume (class a) entered now task) m)
    as [r m1] eqn:Haw.
  destruct (tail_effect now (agent_id (self a)) task _ m m1 r Haw)
    as (response & m' & -> & A & B & C & D & E & F & G & H).
  cbn [snd]. rewrite A, B, C, D, E, F, G, H.
  unfold on_agent in Haw.
  destruct (execute_task_resume (class a) entered now task (self a))
    as [r' s'].
  injection Haw as _ <-. cbn. repeat split; eauto.
Qed.

(** A turn of the loop either ends the loop or is the dispatch pass
    followed by the sweep. *)
Lemma loop_iteration_cases (now : Clock) (m : AgentOrchestrationMatrix) :
  (task_queue m = [] /\ active_tasks m = [] /\
   loop_iteration now m = with_is_running false m) \/
  ((task_queue m <> [] \/ active_tasks m <> []) /\
   exists m1,
     _process_task_queue m = (Returns tt, m1) /\
     loop_iteration now m
     = with_suspended (suspended m ++ [LoopSleeping])
         (_monitor_active_tasks now m1)).
Proof.
  destruct (process_task_queue_spec m)
    as (m1 & Hrun & _ & _ & _ & (_ & _ & _ & _ & Hs)).
  unfold loop_iteration.
  destruct (task_queue m) as [|t q] eqn:Hq.
  - destruct (active_tasks m) as [|e d] eqn:Ha.
    + left. auto.
    + right. split; [right; discriminate|]. exists m1.
      split; [exact Hrun|]. cbn [is_empty negb orb].
      unfold bind, ret, modify.
      unfold _process_task_queue in Hrun. rewrite Hq in Hrun.
      injection Hrun as <-.
      destruct (sweep_fields (datetime_now now) (active_tasks m) m)
        as (_ & _ & _ & Hsusp & _).
      cbn zeta in Hsusp. unfold _monitor_active_tasks at 1, Dict.items.
      now rewrite Hsusp.
  - right. split; [left; discriminate|]. exists m1.
    split; [exact Hrun|]. cbn [is_empty negb orb].
    unfold bind, modify. rewrite Hrun.
    destruct (sweep_fields (datetime_now now) (active_tasks m1) m1)
      as (_ & _ & _ & Hsusp & _).
    cbn zeta in Hsusp. unfold _monitor_active_tasks at 1, Dict.items.
    now rewrite Hsusp, Hs.
Qed.

(** ** Runs: what they keep *)

Lemma pass_mem_active (ts : list Task) :
  forall (d : Dict.t Task) (k : string),
  Dict.mem (fold_left mark_active ts d) k = true <->
  Dict.mem d k = true \/ exists t, In t ts /\ id t = k.
Proof.
  induction ts as [|t ts IH]; intros d k; cbn [fold_left].
  - split; [auto|]. intros [H|(t & [] & _)]. exact H.
  - rewrite IH. unfold mark_active. rewrite dict_mem_set, orb_true_iff.
    rewrite String.eqb_eq. split.
    + intros [[H|H]|(t' & Ht' & Hid)]; eauto.
      * right. exists t. split; [now left|exact H].
      * right. exists t'. split; [now right|exact Hid].
    + intros [H|(t' & [<-|Ht'] & Hid)]; eauto.
Qed.

(** The three collections a task can be in. *)
Lemma tracked_same (m m' : AgentOrchestrationMatrix) (task : Task) :
  task_queue m' = task_queue m ->
  active_tasks m' = active_tasks m ->
  completed_tasks m' = completed_tasks m ->
  tracked m task -> tracked m' task.
Proof. unfold tracked. intros -> -> ->. auto. Qed.

Lemma tracked_finished (m m' : AgentOrchestrationMatrix) (task : Task)
    (k : string) (response : AgentResponse) :
  task_queue m' = task_queue m ->
  active_tasks m' = Dict.del (active_tasks m) k ->
  completed_tasks m' = Dict.set (completed_tasks m) k response ->
  tracked m task -> tracked m' task.
Proof.
  unfold tracked. intros -> -> ->. rewrite dict_mem_del, dict_mem_set.
  intros [H|[H|H]]; auto.
  - destruct (String.eqb k (id task)); cbn; auto.
  - right. right. rewrite H. apply orb_true_r.
Qed.

Lemma tracked_expire (current_time : datetime) (m : AgentOrchestrationMatrix)
    (item : string * Task) (task : Task) :
  tracked m task -> tracked (expire current_time m item) task.
Proof.
  destruct item as [k t]. unfold expire.
  destruct (deadline_exceeded current_time t); auto.
  apply (tracked_finished _ _ _ k (timeout_response current_time k));
    reflexivity.
Qed.

Lemma tracked_sweep (now : Clock) (m : AgentOrchestrationMatrix) (task : Task) :
  tracked m task -> tracked (_monitor_active_tasks now m) task.
Proof.
  unfold _monitor_active_tasks, Dict.items.
  generalize (active_tasks m). intros items. revert m.
  induction items as [|item items IH]; intros m H; cbn; auto.
  apply IH. now apply tracked_expire.
Qed.

Lemma tracked_pass (m m1 : AgentOrchestrationMatrix) (task : Task) :
  _process_task_queue m = (Returns tt, m1) ->
  tracked m task -> tracked m1 task.
Proof.
  intros Hrun.
  destruct (process_task_queue_spec m)
    as (m' & Hrun' & Hq & _ & Hact & (_ & Hc & _)).
  rewrite Hrun in Hrun'. injection Hrun' as <-.
  unfold tracked. rewrite Hq, Hact, Hc, pass_mem_active, filter_In.
  intros [H|[H|H]]; auto.
  destruct (assignable m task) eqn:E.
  - right. left. right. exists task. split; [|reflexivity].
    apply filter_In. split; [now apply sort_task_queue_In|exact E].
  - left. split; [now apply sort_task_queue_In|reflexivity].
Qed.

Lemma tracked_loop (now : Clock) (m : AgentOrchestrationMatrix) (task : Task) :
  tracked m task -> tracked (loop_iteration now m) task.
Proof.
  intros H.
  destruct (loop_iteration_cases now m)
    as [(_ & _ & ->)|(_ & m1 & Hrun & ->)].
  - exact H.
  - apply (tracked_same (_monitor_active_tasks now m1)); try reflexivity.
    apply tracked_sweep. now apply (tracked_pass m).
Qed.

Lemma tracked_start (now : Clock) (c : Coroutine)
    (m : AgentOrchestrationMatrix) (task : Task) :
  tracked m task -> tracked (start_coroutine now c m) task.
Proof.
  intros H. destruct c as [|ref t]; cbn [start_coroutine].
  - unfold _orchestration_loop_start. apply tracked_loop. exact H.
  - destruct (Dict.get (agents m) ref) as [a|] eqn:Hget.
    + destruct (execution_start_effect now ref t m a Hget)
        as (Hq & _ & _ & _ & [(_ & Ha & Hc & _)|(_ & Ha & (r & Hc) & _)]).
      * now apply (tracked_same m).
      * now apply (tracked_finished m _ _ (id t) r).
    + unfold _execute_task_with_agent_start. now rewrite Hget.
Qed.

Lemma tracked_resume (now : Clock) (s : Suspended)
    (m : AgentOrchestrationMatrix) (task : Task) :
  tracked m task -> tracked (resume_coroutine now s m) task.
Proof.
  intros H. destruct s as [|ref t entered]; cbn [resume_coroutine].
  - now apply tracked_loop.
  - destruct (Dict.get (agents m) ref) as [a|] eqn:Hget.
    + destruct (execution_resume_effect entered now ref t m a Hget)
        as (Hq & _ & _ & _ & _ & Ha & (r & Hc) & _).
      now apply (tracked_finished m _ _ (id t) r).
    + unfold _execute_task_with_agent_resume. now rewrite Hget.
Qed.

Lemma submit_fields (task : Task) (m : AgentOrchestrationMatrix) :
  let m' := snd (submit_task task m) in
  task_queue m' = (task_queue m ++ [task])%list /\
  active_tasks m' = active_tasks m /\
  completed_tasks m' = completed_tasks m /\
  agents m' = agents m /\
  suspended m' = suspended m /\
  is_running m' = is_running m /\
  total_tasks (orchestration_metrics m')
  = total_tasks (orchestration_metrics m) + 1 /\
  ready m'
  = (ready m ++ if is_running m then [] else [OrchestrationLoop])%list.
Proof.
  cbn zeta. unfold submit_task. cbn.
  destruct (is_running m) eqn:E; cbn; rewrite ?E, ?app_nil_r; repeat split.
Qed.

Lemma tracked_event (e : Event) (m : AgentOrchestrationMatrix) (task : Task) :
  tracked m task -> tracked (apply_event m e) task.
Proof.
  intros H. destruct e as [agent|t| |now|now i]; cbn [apply_event].
  - exact H.
  - destruct (submit_fields t m) as (Hq & Ha & Hc & _).
    unfold tracked in *. rewrite Hq, Ha, Hc, in_app_iff. tauto.
  - exact H.
  - unfold run_ready. destruct (ready m) as [|c rest]; [exact H|].
    apply tracked_start. exact H.
  - unfold wake. destruct (nth_error (suspended m) i) as [s|]; [|exact H].
    apply tracked_resume. exact H.
Qed.

Lemma tracked_run (es : list Event) :
  forall (m : AgentOrchestrationMatrix) (task : Task),
  tracked m task -> tracked (run_events m es) task.
Proof.
  unfold run_events. induction es as [|e es IH]; intros m task H; cbn; auto.
  apply IH. now apply tracked_event.
Qed.

(** X25 (no submitted task is lost).  From the moment a task is
    submitted, whatever the callers and the event loop do next, the task
    is accounted for: it is in the queue, or its identifier is in flight,
    or a response is recorded for its identifier. *)
Theorem submitted_task_stays_tracked
    (m : AgentOrchestrationMatrix) (before after : list Event) (task : Task) :
  tracked (run_events m (before ++ Submit task :: after)) task.
Proof.
  unfold run_events. rewrite fold_left_app. cbn [fold_left].
  apply tracked_run. left. cbn [apply_event].
  destruct (submit_fields task (fold_left apply_event before m)) as (Hq & _).
  cbn zeta in Hq. rewrite Hq. apply in_or_app. right. now left.
Qed.

Lemma keeps_records_same (m m' : AgentOrchestrationMatrix) :
  agents m' = agents m ->
  completed_tasks m' = completed_tasks m ->
  total_tasks (orchestration_metrics m')
  = total_tasks (orchestration_metrics m) ->
  keeps_records m m'.
Proof. unfold keeps_records. intros -> -> ->. auto. Qed.

Lemma keeps_records_trans (m1 m2 m3 : AgentOrchestrationMatrix) :
  keeps_records m1 m2 -> keeps_records m2 m3 -> keeps_records m1 m3.
Proof.
  unfold keeps_records. intros (A & B & C) (A' & B' & C').
  repeat split; auto. congruence.
Qed.

Lemma mem_set_keeps {V : Type} (d : Dict.t V) (k k' : string) (v : V) :
  Dict.mem d k = true -> Dict.mem (Dict.set d k' v) k = true.
Proof. intros H. rewrite dict_mem_set, H. apply orb_true_r. Qed.

Lemma keeps_records_loop (now : Clock) (m : AgentOrchestrationMatrix) :
  keeps_records m (loop_iteration now m).
Proof.
  destruct (loop_iteration_cases now m)
    as [(_ & _ & ->)|(_ & m1 & Hrun & ->)].
  - now apply keeps_records_same.
  - destruct (process_task_queue_spec m)
      as (m' & Hrun' & _ & _ & _ & (Hag & Hc & Hm & _)).
    rewrite Hrun in Hrun'. injection Hrun' as <-.
    destruct (sweep_fields (datetime_now now) (active_tasks m1) m1)
      as (A & _ & _ & _ & _ & _ & T & _ & C).
    cbn zeta in A, T, C. unfold _monitor_active_tasks, Dict.items.
    unfold keeps_records. cbn. rewrite A, T, Hag, Hm, <- Hc.
    repeat split; auto.
Qed.

Lemma keeps_records_start (now : Clock) (c : Coroutine)
    (m : AgentOrchestrationMatrix) :
  keeps_records m (start_coroutine now c m).
Proof.
  destruct c as [|ref t]; cbn [start_coroutine].
  - unfold _orchestration_loop_start.
    apply (keeps_records_trans m (with_is_running true m));
      [now apply keeps_records_same|apply keeps_records_loop].
  - destruct (Dict.get (agents m) ref) as [a|] eqn:Hget.
    + destruct (execution_start_effect now ref t m a Hget)
        as (_ & _ & _ & T &
            [(_ & _ & Hc & (a' & Hag))|(_ & _ & (r & Hc) & Hag)]);
        unfold keeps_records; rewrite T, Hc, Hag;
        repeat split; auto using mem_set_keeps.
    + unfold _execute_task_with_agent_start. rewrite Hget.
      now apply keeps_records_same.
Qed.

Lemma keeps_records_resume (now : Clock) (s : Suspended)
    (m : AgentOrchestrationMatrix) :
  keeps_records m (resume_coroutine now s m).
Proof.
  destruct s as [|ref t entered]; cbn [resume_coroutine].
  - apply keeps_records_loop.
  - destruct (Dict.get (agents m) ref) as [a|] eqn:Hget.
    + destruct (execution_resume_effect entered now ref t m a Hget)
        as (_ & _ & _ & _ & T & _ & (r & Hc) & (a' & Hag)).
      unfold keeps_records. rewrite T, Hc, Hag.
      repeat split; auto using mem_set_keeps.
    + unfold _execute_task_with_agent_resume. rewrite Hget.
      now apply keeps_records_same.
Qed.

Lemma event_records (e : Event) (m : AgentOrchestrationMatrix) :
  (forall k, Dict.mem (agents m) k = true ->
             Dict.mem (agents (apply_event m e)) k = true) /\
  (forall k, Dict.mem (completed_tasks m) k = true ->
             Dict.mem (completed_tasks (apply_event m e)) k = true) /\
  total_tasks (orchestration_metrics (apply_event m e))
  = total_tasks (orchestration_metrics m) + submissions [e].
Proof.
  destruct e as [agent|t| |now|now i]; cbn [apply_event];
    unfold submissions; cbn [filter List.length Z.of_nat];
    rewrite ?Z.add_0_r.
  - unfold register_agent. cbn. repeat split; auto using mem_set_keeps.
  - destruct (submit_fields t m) as (_ & _ & Hc & Hag & _ & _ & T & _).
    cbn zeta in *. rewrite Hc, Hag, T. repeat split; auto.
  - repeat split; auto.
  - unfold run_ready. destruct (ready m) as [|c rest]; [repeat split; auto|].
    apply (keeps_records_trans m (with_ready rest m));
      [now apply keeps_records_same|apply keeps_records_start].
  - unfold wake. destruct (nth_error (suspended m) i) as [s|];
      [|repeat split; auto].
    match goal with |- context [resume_coroutine now s ?x] =>
      apply (keeps_records_trans m x);
        [now apply keeps_records_same|apply keeps_records_resume] end.
Qed.

(** X26 (nothing is unregistered, no result is dropped, submissions are
    counted).  Whatever the callers and the event loop do: an agent key
    that is registered stays registered, a task identifier with a recorded
    response keeps having one, and [total_tasks] grows by exactly the
    number of submissions. *)
Theorem run_keeps_records (es : list Event) (m : AgentOrchestrationMatrix) :
  (forall k, Dict.mem (agents m) k = true ->
             Dict.mem (agents (run_events m es)) k = true) /\
  (forall k, Dict.mem (completed_tasks m) k = true ->
             Dict.mem (completed_tasks (run_events m es)) k = true) /\
  total_tasks (orchestration_metrics (run_events m es))
  = total_tasks (orchestration_metrics m) + submissions es.
Proof.
  unfold run_events. revert m.
  induction es as [|e es IH]; intros m.
  - cbn. unfold submissions. cbn. rewrite Z.add_0_r. auto.
  - cbn [fold_left].
    destruct (IH (apply_event m e)) as (A & B & C).
    destruct (event_records e m) as (A' & B' & C').
    repeat split; auto.
    rewrite C, C'. unfold submissions. cbn [filter].
    destruct e; cbn [List.length]; lia.
Qed.

(** ** Runs: executions and the in-flight map *)

Lemma In_executions (m : AgentOrchestrationMatrix) (ref : string) (task : Task) :
  In (ref, task) (executions m) <->
  In (ExecuteTaskWithAgent ref task) (ready m) \/
  exists entered, In (AgentExecuting ref task entered) (suspended m).
Proof.
  unfold executions. rewrite in_app_iff, !in_flat_map. split.
  - intros [(c & Hc & Hin)|(s & Hs & Hin)].
    + destruct c as [|r t]; cbn in Hin; [destruct Hin|].
      destruct Hin as [[= -> ->]|[]]. auto.
    + destruct s as [|r t e]; cbn in Hin; [destruct Hin|].
      destruct Hin as [[= -> ->]|[]]. eauto.
  - intros [H|(e & H)].
    + left. exists (ExecuteTaskWithAgent ref task). cbn. auto.
    + right. exists (AgentExecuting ref task e). cbn. auto.
Qed.

(** A matrix whose executions and in-flight entries are among those of a
    consistent one, with no registered key lost, is consistent. *)
Lemma consistent_weaken (m m' : AgentOrchestrationMatrix) :
  executions_consistent m ->
  (forall k, Dict.mem (agents m) k = true -> Dict.mem (agents m') k = true) ->
  (forall w, In w (executions m') -> In w (executions m)) ->
  (forall k task, In (k, task) (active_tasks m') ->
     In (k, task) (active_tasks m) /\
     forall ref task', In (ref, task') (executions m) -> id task' = k ->
                       In (ref, task') (executions m')) ->
  executions_consistent m'.
Proof.
  intros [I2 I3] Hag Hex Hact. split.
  - intros ref task Hin. apply Hag. eapply I2. apply Hex. exact Hin.
  - intros k task Hin. destruct (Hact k task Hin) as [Hin0 Hkeep].
    destruct (I3 k task Hin0) as (Hk & ref & task' & Hw & Hid).
    split; [exact Hk|]. exists ref, task'. split; [|exact Hid].
    now apply Hkeep.
Qed.

Lemma In_remove_nth {A : Type} (l : list A) (i : nat) (s x : A) :
  nth_error l i = Some s ->
  (In x (firstn i l ++ skipn (S i) l) -> In x l) /\
  (In x l -> x = s \/ In x (firstn i l ++ skipn (S i) l)).
Proof.
  revert i. induction l as [|y l IH]; intros i Hnth.
  - destruct i; discriminate.
  - destruct i as [|i]; cbn in Hnth |- *.
    + injection Hnth as ->. split; [auto|]. intros [->|H]; auto.
    + destruct (IH i Hnth) as [H1 H2]. split.
      * intros [->|H]; auto.
      * intros [->|H]; auto. destruct (H2 H); auto.
Qed.

Lemma fold_mark_active_In_inv (ts : list Task) :
  forall (d : Dict.t Task) (k : string) (task : Task),
  In (k, task) (fold_left mark_active ts d) ->
  In (k, task) d \/ (k = id task /\ In task ts).
Proof.
  induction ts as [|t ts IH]; intros d k task Hin; cbn in Hin; auto.
  destruct (IH _ _ _ Hin) as [H|[Hk Ht]].
  - unfold mark_active in H. apply dict_In_set in H.
    destruct H as [[-> ->]|H]; auto. right. split; [reflexivity|now left].
  - right. split; [exact Hk|now right].
Qed.

Lemma drop_expired_subset (current_time : datetime)
    (items : list (string * Task)) (d : Dict.t Task) (k : string) (t : Task) :
  In (k, t) (fold_left (drop_expired current_time) items d) -> In (k, t) d.
Proof. intros H. now apply drop_expired_In in H. Qed.

Lemma consistent_pass (m m1 : AgentOrchestrationMatrix) :
  _process_task_queue m = (Returns tt, m1) ->
  executions_consistent m -> executions_consistent m1.
Proof.
  intros Hrun [I2 I3].
  destruct (process_task_queue_spec m)
    as (m' & Hrun' & _ & Hrd & Hact & (Hag & _ & _ & _ & Hs)).
  rewrite Hrun in Hrun'. injection Hrun' as <-.
  assert (Hex : forall ref task,
            In (ref, task) (executions m1) <->
            In (ref, task) (executions m) \/
            In (ExecuteTaskWithAgent ref task)
              (flat_map (launch m) (sort_task_queue (task_queue m)))).
  { intros ref task. rewrite !In_executions, Hrd, Hs, in_app_iff. tauto. }
  split.
  - intros ref task Hin. rewrite Hag. apply Hex in Hin.
    destruct Hin as [Hin|Hin]; [eapply I2; exact Hin|].
    apply in_flat_map in Hin. destruct Hin as (t & _ & Hin).
    unfold launch in Hin.
    destruct (_select_best_agent m t) as [[r best]|] eqn:Hsel; [|destruct Hin].
    destruct (AgentState_eqb (state (self best)) IDLE); [|destruct Hin].
    destruct Hin as [[= -> ->]|[]].
    apply select_best_agent_eligible in Hsel.
    eapply dict_In_mem. apply Hsel.
  - intros k task Hin. rewrite Hact in Hin.
    apply fold_mark_active_In_inv in Hin. destruct Hin as [Hin|[-> Hin]].
    + destruct (I3 k task Hin) as (Hk & ref & task' & Hw & Hid).
      split; [exact Hk|]. exists ref, task'. split; [|exact Hid].
      apply Hex. now left.
    + split; [reflexivity|].
      apply filter_In in Hin. destruct Hin as [Hin Ha].
      destruct (assignable_launch m task Ha) as [ref Hl].
      exists ref, task. split; [|reflexivity].
      apply Hex. right. apply in_flat_map. exists task.
      rewrite Hl. split; [exact Hin|now left].
Qed.

Lemma consistent_sweep (now : Clock) (m : AgentOrchestrationMatrix) :
  executions_consistent m ->
  executions_consistent (_monitor_active_tasks now m).
Proof.
  intros H. unfold _monitor_active_tasks, Dict.items.
  destruct (sweep_fields (datetime_now now) (active_tasks m) m)
    as (A & _ & R & S & _ & Act & _).
  cbn zeta in *. apply (consistent_weaken m); auto.
  - intros k. now rewrite A.
  - intros [ref t]. rewrite !In_executions, R, S. auto.
  - intros k task Hin. rewrite Act in Hin.
    apply drop_expired_subset in Hin. split; [exact Hin|].
    intros ref t'. rewrite !In_executions, R, S. auto.
Qed.

Lemma executions_loop_frame (m : AgentOrchestrationMatrix)
    (l : list Suspended) :
  (forall ref task entered,
     In (AgentExecuting ref task entered) l <->
     In (AgentExecuting ref task entered) (suspended m)) ->
  forall w, In w (executions (with_suspended l m)) <-> In w (executions m).
Proof.
  intros H [ref task]. rewrite !In_executions. cbn [ready suspended with_suspended].
  split; intros [Hr|(e & He)]; auto; right; exists e; now apply H.
Qed.

Lemma consistent_suspended (m : AgentOrchestrationMatrix)
    (l : list Suspended) :
  (forall ref task entered,
     In (AgentExecuting ref task entered) l <->
     In (AgentExecuting ref task entered) (suspended m)) ->
  executions_consistent m -> executions_consistent (with_suspended l m).
Proof.
  intros Hl H. pose proof (executions_loop_frame m l Hl) as Hex.
  apply (consistent_weaken m); auto.
  - intros w. apply Hex.
  - intros k task Hin. split; [exact Hin|]. intros ref t' Hw _.
    now apply Hex.
Qed.

Lemma consistent_flag (b : bool) (m : AgentOrchestrationMatrix) :
  executions_consistent m -> executions_consistent (with_is_running b m).
Proof. intros H. exact H. Qed.

Lemma consistent_loop (now : Clock) (m : AgentOrchestrationMatrix) :
  executions_consistent m -> executions_consistent (loop_iteration now m).
Proof.
  intros H.
  destruct (loop_iteration_cases now m)
    as [(_ & _ & ->)|(_ & m1 & Hrun & ->)].
  - exact H.
  - pose proof (consistent_sweep now m1 (consistent_pass m m1 Hrun H)) as H2.
    destruct (process_task_queue_spec m)
      as (m' & Hrun' & _ & _ & _ & (_ & _ & _ & _ & Hs)).
    rewrite Hrun in Hrun'. injection Hrun' as <-.
    destruct (sweep_fields (datetime_now now) (active_tasks m1) m1)
      as (_ & _ & _ & S & _).
    cbn zeta in S.
    apply consistent_suspended; [|exact H2].
    intros ref task entered. unfold _monitor_active_tasks, Dict.items.
    rewrite S, Hs, in_app_iff. split; [|auto].
    intros [Hin|[[=]|[]]]. exact Hin.
Qed.

Lemma mem_get_some {V : Type} (d : Dict.t V) (k : string) :
  Dict.mem d k = true -> exists v, Dict.get d k = Some v.
Proof. apply dict_mem_get. Qed.

Lemma consistent_run_ready (now : Clock) (m : AgentOrchestrationMatrix) :
  executions_consistent m -> executions_consistent (run_ready now m).
Proof.
  intros H. unfold run_ready.
  destruct (ready m) as [|c rest] eqn:Hready; [exact H|].
  destruct c as [|ref t]; cbn [start_coroutine].
  - unfold _orchestration_loop_start. apply consistent_loop.
    apply consistent_flag. apply (consistent_weaken m); auto.
    + intros [r t]. rewrite !In_executions. cbn [ready suspended with_ready].
      rewrite Hready. intros [Hin|Hin]; [left; now right|now right].
    + intros k task Hin. split; [exact Hin|].
      intros r t'. rewrite !In_executions. cbn [ready suspended with_ready].
      rewrite Hready. intros [[[=]|Hw]|Hw] _; auto.
  - set (m0 := with_ready rest m).
    assert (Hreg : Dict.mem (agents m) ref = true).
    { destruct H as [I2 _]. apply (I2 ref t). apply In_executions.
      left. rewrite Hready. now left. }
    destruct (mem_get_some _ _ Hreg) as [a Hget].
    destruct (execution_start_effect now ref t m0 a Hget)
      as (_ & Hr & _ & _ &
          [(Hs & Ha & _ & (a' & Hag))|(Hs & Ha & _ & Hag)]);
      cbn zeta in *; apply (consistent_weaken m); auto.
    + intros k Hk. rewrite Hag. now apply mem_set_keeps.
    + intros [r t']. rewrite !In_executions, Hr, Hs, Hready.
      cbn [ready suspended m0 with_ready].
      intros [Hw|(e & Hw)].
      * left. now right.
      * apply in_app_or in Hw. destruct Hw as [Hw|[[= -> -> _]|[]]].
        -- right. eauto.
        -- left. now left.
    + intros k task Hin. rewrite Ha in Hin. split; [exact Hin|].
      intros r t'. rewrite !In_executions, Hr, Hs, Hready.
      cbn [ready suspended m0 with_ready].
      intros [[[= -> ->]|Hw]|(e & Hw)] _; auto.
      * right. exists now. apply in_or_app. right. now left.
      * right. exists e. apply in_or_app. now left.
    + intros k Hk. now rewrite Hag.
    + intros [r t']. rewrite !In_executions, Hr, Hs, Hready.
      cbn [ready suspended m0 with_ready].
      intros [Hw|Hw]; auto. left. now right.
    + intros k task Hin. rewrite Ha in Hin.
      cbn [active_tasks m0 with_ready] in Hin.
      apply dict_In_del in Hin. destruct Hin as [Hin Hne].
      split; [exact Hin|].
      intros r t'. rewrite !In_executions, Hr, Hs, Hready.
      cbn [ready suspended m0 with_ready].
      intros [[[= -> ->]|Hw]|Hw] Hid; auto. congruence.
Qed.

Lemma consistent_wake (now : Clock) (i : nat) (m : AgentOrchestrationMatrix) :
  executions_consistent m -> executions_consistent (wake now i m).
Proof.
  intros H. unfold wake.
  destruct (nth_error (suspended m) i) as [s|] eqn:Hnth; [|exact H].
  set (rest := (firstn i (suspended m) ++ skipn (S i) (suspended m))%list).
  destruct s as [|ref t entered]; cbn [resume_coroutine].
  - apply consistent_loop. apply consistent_suspended; [|exact H].
    intros r t' e.
    destruct (In_remove_nth _ _ _ (AgentExecuting r t' e) Hnth) as [A B].
    split; [exact A|]. intros Hin. destruct (B Hin) as [[=]|]; auto.
  - set (m0 := with_suspended rest m).
    assert (Hreg : Dict.mem (agents m) ref = true).
    { destruct H as [I2 _]. apply (I2 ref t). apply In_executions.
      right. exists entered. eapply nth_error_In. exact Hnth. }
    destruct (mem_get_some _ _ Hreg) as [a Hget].
    destruct (execution_resume_effect entered now ref t m0 a Hget)
      as (_ & Hr & Hs & _ & _ & Ha & _ & (a' & Hag)).
    cbn zeta in *. apply (consistent_weaken m); auto.
    + intros k Hk. rewrite Hag. now apply mem_set_keeps.
    + intros [r t']. rewrite !In_executions, Hr, Hs.
      cbn [ready suspended m0 with_suspended].
      intros [Hin|(e & Hin)]; auto. right. exists e.
      now apply (In_remove_nth _ _ _ _ Hnth).
    + intros k task Hin. rewrite Ha in Hin.
      cbn [active_tasks m0 with_suspended] in Hin.
      apply dict_In_del in Hin. destruct Hin as [Hin Hne].
      split; [exact Hin|].
      intros r t'. rewrite !In_executions, Hr, Hs.
      cbn [ready suspended m0 with_suspended].
      intros [Hin'|(e & Hin')] Hid; auto. right. exists e.
      destruct (In_remove_nth _ _ _ (AgentExecuting r t' e) Hnth) as [_ B].
      destruct (B Hin') as [[= -> -> _]|]; auto. congruence.
Qed.

Lemma consistent_event (e : Event) (m : AgentOrchestrationMatrix) :
  executions_consistent m -> executions_consistent (apply_event m e).
Proof.
  intros H. destruct e as [agent|t| |now|now i]; cbn [apply_event].
  - apply (consistent_weaken m); auto.
    intros k Hk. unfold register_agent. cbn. now apply mem_set_keeps.
  - destruct (submit_fields t m) as (_ & Ha & _ & Hag & Hs & _ & _ & Hr).
    cbn zeta in *. apply (consistent_weaken m); auto.
    + intros k. now rewrite Hag.
    + intros [r t']. rewrite !In_executions, Hr, Hs, in_app_iff.
      intros [[Hin|Hin]|Hin]; auto.
      destruct (is_running m); [destruct Hin|destruct Hin as [[=]|[]]].
    + intros k task Hin. rewrite Ha in Hin. split; [exact Hin|].
      intros r t'. rewrite !In_executions, Hr, Hs, in_app_iff. tauto.
  - exact H.
  - now apply consistent_run_ready.
  - now apply consistent_wake.
Qed.

(** X27 (executions and the in-flight map agree, in every run).  In every
    state the system reaches from its initial one, every execution,
    created or suspended, refers to a registered agent, and every entry of
    the in-flight map is filed under the identifier of its task and has an
    execution under way for that identifier: no task is in flight with
    nothing left to end it. *)
Theorem executions_consistent_in_every_run (es : list Event) :
  executions_consistent (run_events AgentOrchestrationMatrix_init es).
Proof.
  assert (H0 : executions_consistent AgentOrchestrationMatrix_init).
  { split; [intros ref task []|intros k task []]. }
  revert H0. unfold run_events. generalize AgentOrchestrationMatrix_init.
  induction es as [|e es IH]; intros m H; cbn; auto.
  apply IH. now apply consistent_event.
Qed.

(** ** The consciousness engine *)

Section ConsciousnessFacts.
Import Consciousness.

Lemma min_one_le (x : Q) : (min_one x <= 1)%Q.
Proof.
  unfold min_one. destruct (Qle_bool 1 x) eqn:E; [apply Qle_refl|].
  apply Qlt_le_weak. apply Qnot_le_lt. intros H.
  apply Qle_bool_iff in H. congruence.
Qed.

Lemma min_one_ge (x y : Q) : (y <= 1)%Q -> (y <= x)%Q -> (y <= min_one x)%Q.
Proof. intros H1 Hx. unfold min_one. now destruct (Qle_bool 1 x). Qed.

Lemma grown_refl (p : AdaptivePersonality) : bounded p -> grown p p.
Proof.
  intros Hb name. destruct (Dict.get (traits p) name) as [t|] eqn:E; auto.
  exists t. destruct (Hb name t E) as [_ H1].
  repeat split; auto. apply Qle_refl.
Qed.

Lemma grown_trans (p1 p2 p3 : AdaptivePersonality) :
  grown p1 p2 -> grown p2 p3 -> grown p1 p3.
Proof.
  intros H12 H23 name. specialize (H12 name). specialize (H23 name).
  destruct (Dict.get (traits p1) name) as [t1|].
  - destruct H12 as (t2 & E2 & [L2 U2] & A2 & N2). rewrite E2 in H23.
    destruct H23 as (t3 & E3 & [L3 U3] & A3 & N3).
    exists t3. split; [exact E3|]. split; [|split; congruence].
    split; [eapply Qle_trans; eauto|exact U3].
  - now rewrite H12 in H23.
Qed.

Lemma strengthen_trait_grows (now : datetime) (name : string) (amount : Q)
    (p : AdaptivePersonality) :
  (0 <= amount)%Q -> bounded p ->
  grown p (_strengthen_trait now name amount p) /\
  bounded (_strengthen_trait now name amount p) /\
  interaction_history (_strengthen_trait now name amount p)
  = interaction_history p.
Proof.
  intros Hamount Hb. unfold _strengthen_trait.
  destruct (Dict.get (traits p) name) as [t|] eqn:E;
    [|split; [now apply grown_refl|split; auto]].
  destruct (Hb name t E) as [Ha H1].
  assert (Hc : (0 <= adaptability t * amount)%Q)
    by now apply Qmult_le_0_compat.
  split; [|split; [|reflexivity]].
  - intros k. cbn [traits].
    destruct (string_dec name k) as [<-|Hne].
    + rewrite E, dict_get_set_same. eexists. split; [reflexivity|].
      cbn. repeat split; [|apply min_one_le].
      apply min_one_ge; [exact H1|].
      rewrite <- (Qplus_0_r (strength t)) at 1.
      apply Qplus_le_r. exact Hc.
    + rewrite dict_get_set_other by exact Hne.
      destruct (Dict.get (traits p) k) as [t0|] eqn:E0; auto.
      exists t0. destruct (Hb k t0 E0). repeat split; auto. apply Qle_refl.
  - intros k t0. cbn [traits].
    destruct (string_dec name k) as [<-|Hne].
    + rewrite dict_get_set_same. intros [= <-]. cbn.
      split; [exact Ha|apply min_one_le].
    + rewrite dict_get_set_other by exact Hne. apply Hb.
Qed.

Lemma adapt_grows (now : datetime) (interaction_data : Dict.t PyAtom)
    (p : AdaptivePersonality) :
  bounded p ->
  grown p (adapt_to_interaction now interaction_data p) /\
  bounded (adapt_to_interaction now interaction_data p) /\
  List.length (interaction_history (adapt_to_interaction now interaction_data p))
  = S (List.length (interaction_history p)).
Proof.
  intros Hb. unfold adapt_to_interaction. cbn zeta.
  assert (Hamount : (0 <= 0.05)%Q) by (unfold Qle; cbn; lia).
  set (p1 := if is_str _ "positive" then _ else p).
  assert (H : grown p p1 /\ bounded p1 /\
              interaction_history p1 = interaction_history p).
  { subst p1.
    destruct (is_str _ "positive");
      [|split; [now apply grown_refl|split; auto]].
    destruct (is_str _ "creative");
      [now apply strengthen_trait_grows|].
    destruct (is_str _ "analytical");
      [now apply strengthen_trait_grows|].
    destruct (is_str _ "empathetic");
      [now apply strengthen_trait_grows|].
    split; [now apply grown_refl|split; auto]. }
  destruct H as (Hg & Hb1 & Hh). cbn [traits interaction_history].
  split; [exact Hg|]. split; [exact Hb1|].
  rewrite length_app, Hh. cbn. lia.
Qed.

Lemma adapt_to_all_grows (calls : list (datetime * Dict.t PyAtom)) :
  forall p : AdaptivePersonality,
  bounded p ->
  grown p (adapt_to_all calls p) /\
  List.length (interaction_history (adapt_to_all calls p))
  = (List.length (interaction_history p) + List.length calls)%nat.
Proof.
  unfold adapt_to_all.
  induction calls as [|[now d] calls IH]; intros p Hb; cbn [fold_left].
  - split; [now apply grown_refl|cbn; lia].
  - destruct (adapt_grows now d p Hb) as (Hg & Hb1 & Hlen).
    destruct (IH _ Hb1) as [Hg' Hlen'].
    split; [eapply grown_trans; eauto|].
    cbn [fst snd] in *. rewrite Hlen', Hlen. cbn. lia.
Qed.
End ConsciousnessFacts.

Section ConsciousnessProperties.
Import Consciousness.

(** X28 ([AdaptivePersonality.adapt_to_interaction], over any series of
    interactions).  Starting from traits none of which is stronger than
    1.0 or has a negative adaptability, as the base traits are, a series
    of interactions never weakens a trait, never takes one above 1.0,
    adds and removes none and leaves every adaptability as it is; the
    history grows by one entry per interaction; and an interaction whose
    feedback is not [positive] changes no trait at all. *)
Theorem personality_traits_only_grow
    (calls : list (datetime * Dict.t PyAtom)) (p : AdaptivePersonality) :
  bounded p ->
  grown p (adapt_to_all calls p) /\
  List.length (interaction_history (adapt_to_all calls p))
  = (List.length (interaction_history p) + List.length calls)%nat /\
  forall now interaction_data,
    is_str (get_default interaction_data "feedback" (PyStr "neutral"))
      "positive" = false ->
    traits (adapt_to_interaction now interaction_data p) = traits p.
Proof.
  intros Hb. destruct (adapt_to_all_grows calls p Hb) as [Hg Hlen].
  split; [exact Hg|]. split; [exact Hlen|].
  intros now d Hneg. unfold adapt_to_interaction. cbn zeta.
  now rewrite Hneg.
Qed.

Lemma personality_traits_only_grow_witness :
  bounded (AdaptivePersonality_init 0 "test_user_001") /\
  grown (AdaptivePersonality_init 0 "test_user_001")
    (adapt_to_all
       [(1, [("feedback", PyStr "positive"); ("type", PyStr "analytical")]);
        (2, [("feedback", PyStr "neutral"); ("type", PyStr "empathetic")])]
       (AdaptivePersonality_init 0 "test_user_001")).
Proof.
  refine ((fun H =>
             conj H (proj1 (personality_traits_only_grow _ _ H))) _).
  intros name t H. cbn in H.
  repeat (destruct (String.eqb name _);
          [injection H as <-; split; vm_compute; discriminate|]).
  discriminate.
Defined.

Lemma updates_of_snoc (entity_id : string)
    (calls : list (datetime * string * Dict.t PyAtom))
    (call : datetime * string * Dict.t PyAtom) :
  updates_of entity_id (calls ++ [call])
  = updates_of entity_id calls
    + (if String.eqb (snd (fst call)) entity_id then 1 else 0).
Proof.
  unfold updates_of. rewrite filter_app, length_app. cbn [filter].
  destruct (String.eqb (snd (fst call)) entity_id); cbn [List.length]; lia.
Qed.

(** One update, for the entity updated and for the others. *)
Lemma update_relationship_step (now : datetime) (entity_id : string)
    (interaction_data : Dict.t PyAtom) (r : Dict.t Relationship) :
  (exists rel,
     Dict.get (update_relationship now entity_id interaction_data r) entity_id
     = Some rel /\
     interactions rel
     = match Dict.get r entity_id with
       | Some old => interactions old + 1
       | None => 1
       end /\
     ((match Dict.get r entity_id with
       | Some old => (0.1 <= rel_strength old <= 1)%Q
       | None => True
       end) -> (0.1 <= rel_strength rel <= 1)%Q)) /\
  forall other, other <> entity_id ->
    Dict.get (update_relationship now entity_id interaction_data r) other
    = Dict.get r other.
Proof.
  assert (Htenth : (0.1 <= 1)%Q) by (unfold Qle; cbn; lia).
  assert (Hpos : (0 <= 0.1)%Q) by (unfold Qle; cbn; lia).
  unfold update_relationship, Dict.mem. cbn zeta.
  destruct (Dict.get r entity_id) as [old|] eqn:E; cbn [negb].
  - rewrite E. split.
    + rewrite dict_get_set_same. eexists. split; [reflexivity|].
      cbn. split; [reflexivity|]. intros [L U].
      destruct (is_str _ "positive"); [|auto].
      split; [|apply min_one_le].
      apply min_one_ge; [exact Htenth|].
      rewrite <- (Qplus_0_r 0.1) at 1.
      apply Qplus_le_compat; assumption.
    + intros other Hne. now rewrite dict_get_set_other by auto.
  - rewrite dict_get_set_same. split.
    + rewrite dict_get_set_same. eexists. split; [reflexivity|].
      cbn. split; [reflexivity|]. intros _.
      destruct (is_str _ "positive"); split; vm_compute; discriminate.
    + intros other Hne. now rewrite !dict_get_set_other by auto.
Qed.

(** X29 ([SocialContextGraph.update_relationship], over any series of
    updates).  Starting without relationships, after a series of updates
    an entity has an entry exactly if it was updated at least once; the
    entry counts the updates of that entity, and its strength lies
    between 0.1 and 1.0. *)
Theorem relationship_counts_interactions
    (calls : list (datetime * string * Dict.t PyAtom)) (entity_id : string) :
  match Dict.get (update_all calls []) entity_id with
  | Some rel =>
      interactions rel = updates_of entity_id calls /\
      0 < updates_of entity_id calls /\
      (0.1 <= rel_strength rel <= 1)%Q
  | None => updates_of entity_id calls = 0
  end.
Proof.
  induction calls as [|[[now e] d] calls IH] using rev_ind; [reflexivity|].
  unfold update_all in *. rewrite fold_left_app, updates_of_snoc.
  cbn [fold_left fst snd].
  set (r := fold_left
              (fun (r : Dict.t Relationship)
                 (call : datetime * string * Dict.t PyAtom) =>
               update_relationship (fst (fst call)) (snd (fst call))
                 (snd call) r) calls []) in *.
  destruct (update_relationship_step now e d r) as [(rel & Hget & Hn & Hs) Ho].
  destruct (String.eqb e entity_id) eqn:E.
  - apply String.eqb_eq in E. subst e. rewrite Hget.
    destruct (Dict.get r entity_id) as [old|].
    + destruct IH as (A & B & C). repeat split; try lia; now apply Hs.
    + repeat split; try lia; now apply Hs.
  - apply String.eqb_neq in E. rewrite Ho by auto.
    rewrite Z.add_0_r. exact IH.
Qed.

Lemma sum_importance_from (memories : list Memory) :
  forall acc : Q,
  (0 <= acc)%Q ->
  (forall m, In m memories -> (0 <= importance_score m)%Q) ->
  (0 <= fold_left (fun acc m => (acc + importance_score m)%Q) memories acc)%Q.
Proof.
  induction memories as [|m memories IH]; intros acc Hacc H; cbn; auto.
  apply IH.
  - rewrite <- (Qplus_0_r 0). apply Qplus_le_compat; [exact Hacc|].
    apply H. now left.
  - intros m' Hm'. apply H. now right.
Qed.

(** X30 ([AIConsciousness._calculate_confidence], bounds).  The
    confidence is 0.3 when there are no memories, it never exceeds 1.0,
    and it is at least 0.2 when no importance score is negative. *)
Theorem confidence_bounds (memories : list Memory) :
  (memories = [] -> _calculate_confidence memories = 0.3%Q) /\
  (_calculate_confidence memories <= 1)%Q /\
  ((forall m, In m memories -> (0 <= importance_score m)%Q) ->
   (0.2 <= _calculate_confidence memories)%Q).
Proof.
  split; [intros ->; reflexivity|].
  destruct memories as [|m0 memories]; cbn [_calculate_confidence].
  - split; [|intros _]; unfold Qle; cbn; lia.
  - split; [apply min_one_le|]. intros Hpos.
    apply min_one_ge; [unfold Qle; cbn; lia|].
    rewrite <- (Qplus_0_l 0.2) at 1. apply Qplus_le_l.
    apply Qle_shift_div_l.
    + unfold Qlt. cbn. lia.
    + rewrite Qmult_0_l. unfold sum_importance.
      apply sum_importance_from; [apply Qle_refl|exact Hpos].
Qed.
End ConsciousnessProperties.
